(** * The events socket of the CLI dev server

    A shallow embedding of
    [packages/cli-server-api/src/websocket/eventsSocketServer.ts]:
    [parseMessage], [serializeMessage], the [verifyClient] admission check and
    the closures that [attachToServer] installs ([broadCastEvent], the
    connection handler with its [onclose], [onerror] and [onmessage]
    callbacks, and [reportEvent]).

    The JavaScript host is modelled as far as the module uses it.

    - Values are data: [undefined], [null], booleans, numbers with an integer
      value, BigInts, strings (of 8-bit characters), arrays, plain objects and
      [Error] instances.  Functions, symbols, accessors, cyclic structures
      and numbers that are not integers are outside the domain.
    - A plain object keeps its properties in enumeration order and the
      [clients] map keeps its entries in insertion order, since the JSON text
      and the order of the socket writes follow them: both are association
      lists.
    - [nextClientId] is a double that holds an integer; its increment is
      exact below [2^53] and without effect from there on.
    - [JSON.stringify], the conversions and the operators are defined on
      the domain.  What the host decides on its own is a variable of the
      development: the value [JSON.parse] decodes a text to, the string
      [prettyFormat] renders (it is taken to return one for every value of the
      domain), and whether a socket write or the message socket's
      [broadcast] throws.
    - Every call of [logger.error], [JSON.stringify], [ws.send] and
      [messageSocket.broadcast] is recorded in a trace. *)

From Stdlib Require Import ZArith List String Ascii Bool Lia.
From Stdlib Require Import DecimalString DecimalPos DecimalZ.
Import ListNotations.

Local Open Scope string_scope.
Local Open Scope Z_scope.
Set Warnings "-register-all".

(** ** JavaScript values *)

Module JS.

(** An [Error] instance, as far as the module looks at one: through
    [instanceof Error] and through its string conversion. *)
Record Error : Type := mkError { error_name : string; error_message : string }.

Definition TypeError (msg : string) : Error := mkError "TypeError" msg.
Definition SyntaxError (msg : string) : Error := mkError "SyntaxError" msg.

(** The values an event, a decoded message or one of their fields can be
    (TypeScript's [any], restricted to data).  [VNum n] is the number with the
    integer value [n]; [VObj props] is a plain object with its own enumerable
    properties in enumeration order; an [Error] instance has no enumerable
    property of its own. *)
Inductive any : Type :=
| VUndefined
| VNull
| VBool (b : bool)
| VNum (n : Z)
| VBigInt (n : Z)
| VStr (s : string)
| VArr (items : list any)
| VObj (props : list (string * any))
| VError (e : Error).

(** The result of evaluating an expression: a value, or a thrown [Error]. *)
Inductive outcome (A : Type) : Type :=
| Ret (a : A)
| Throw (e : Error).
Arguments Ret {A} a.
Arguments Throw {A} e.

Definition dquote : string := String "034"%char EmptyString.
Definition backslash : string := String "092"%char EmptyString.
Definition newline : string := String "010"%char EmptyString.

(** ToBoolean. *)
Definition truthy (v : any) : bool :=
  match v with
  | VUndefined | VNull => false
  | VBool b => b
  | VNum n | VBigInt n => negb (n =? 0)
  | VStr s => negb (s =? "")%string
  | VArr _ | VObj _ | VError _ => true
  end.

(** [a === b] where one side is a primitive, which is how the module uses
    it: the operands must have the same type and the same value. *)
Definition strict_eq (a b : any) : bool :=
  match a, b with
  | VUndefined, VUndefined | VNull, VNull => true
  | VBool x, VBool y => Bool.eqb x y
  | VNum x, VNum y | VBigInt x, VBigInt y => x =? y
  | VStr x, VStr y => (x =? y)%string
  | _, _ => false
  end.

(** [v == null]. *)
Definition is_nullish (v : any) : bool :=
  match v with
  | VUndefined | VNull => true
  | _ => false
  end.

(** [typeof v === 'string']. *)
Definition typeof_string (v : any) : bool :=
  match v with
  | VStr _ => true
  | _ => false
  end.

(** [v instanceof Error]. *)
Definition instanceof_Error (v : any) : bool :=
  match v with
  | VError _ => true
  | _ => false
  end.

Fixpoint lookup (k : string) (props : list (string * any)) : option any :=
  match props with
  | [] => None
  | (k', v) :: rest => if (k =? k')%string then Some v else lookup k rest
  end.

(** Property read [v.k], for the names the module reads ([version], [error],
    [type], [data], [command], [params]): none of them is defined by a
    built-in prototype, so the read finds an own property of a plain object or
    yields [undefined]; on [undefined] and [null] it throws. *)
Definition Get (v : any) (k : string) : outcome any :=
  match v with
  | VUndefined =>
      Throw (TypeError ("Cannot read properties of undefined (reading '" ++ k ++ "')"))
  | VNull =>
      Throw (TypeError ("Cannot read properties of null (reading '" ++ k ++ "')"))
  | VObj props =>
      Ret (match lookup k props with Some x => x | None => VUndefined end)
  | _ => Ret VUndefined
  end.

(** Number::toString of an integer: decimal digits and a leading minus sign,
    which is what the host prints below [10^21] in absolute value. *)
Definition Number_toString (n : Z) : string :=
  NilZero.string_of_int (Z.to_int n).

(** Error.prototype.toString. *)
Definition Error_toString (e : Error) : string :=
  if (error_name e =? "")%string then error_message e
  else if (error_message e =? "")%string then error_name e
  else error_name e ++ ": " ++ error_message e.

(** ToString, the conversion that [+] applies to the right operand of a
    string.  A plain object converts through [Object.prototype.toString]
    unless an own property hides that method; an array joins its elements. *)
Fixpoint ToString (v : any) : outcome string :=
  match v with
  | VUndefined => Ret "undefined"
  | VNull => Ret "null"
  | VBool b => Ret (if b then "true" else "false")
  | VNum n | VBigInt n => Ret (Number_toString n)
  | VStr s => Ret s
  | VArr items =>
      (fix join (l : list any) : outcome string :=
         match l with
         | [] => Ret ""
         | x :: rest =>
             match (if is_nullish x then Ret "" else ToString x) with
             | Throw e => Throw e
             | Ret s =>
                 match rest with
                 | [] => Ret s
                 | _ :: _ =>
                     match join rest with
                     | Throw e => Throw e
                     | Ret t => Ret (s ++ "," ++ t)
                     end
                 end
             end
         end) items
  | VObj props =>
      match lookup "toString" props with
      | Some _ => Throw (TypeError "Cannot convert object to primitive value")
      | None => Ret "[object Object]"
      end
  | VError e => Ret (Error_toString e)
  end.

Fixpoint chars (s : string) : list string :=
  match s with
  | EmptyString => []
  | String c rest => String c EmptyString :: chars rest
  end.

Fixpoint indexed (i : Z) (l : list any) : list (string * any) :=
  match l with
  | [] => []
  | x :: rest => (Number_toString i, x) :: indexed (i + 1) rest
  end.

(** The own enumerable properties that object spread [{...v}] copies. *)
Definition own_enumerable (v : any) : list (string * any) :=
  match v with
  | VObj props => props
  | VArr items => indexed 0 items
  | VStr s => indexed 0 (map VStr (chars s))
  | _ => []
  end.

(** Defining property [k] of an object literal under construction: an
    existing key keeps its place and takes the new value, a new key goes
    last. *)
Fixpoint define (k : string) (x : any) (props : list (string * any))
  : list (string * any) :=
  match props with
  | [] => [(k, x)]
  | (k', v) :: rest =>
      if (k =? k')%string then (k, x) :: rest else (k', v) :: define k x rest
  end.

(** The call [v.map(f)]: [Array.prototype.map] on an array; on anything else
    the property read throws ([undefined], [null]) or finds no function, the
    domain having none. *)
Definition call_map (v : any) (f : any -> any) : outcome any :=
  match v with
  | VArr items => Ret (VArr (map f items))
  | VUndefined =>
      Throw (TypeError "Cannot read properties of undefined (reading 'map')")
  | VNull =>
      Throw (TypeError "Cannot read properties of null (reading 'map')")
  | _ => Throw (TypeError "message.data.map is not a function")
  end.

(** [s.startsWith(p)]. *)
Definition startsWith (s p : string) : bool := String.prefix p s.

(** [n++] on a number that holds a non-negative integer: IEEE-754 doubles
    count exactly up to [2^53], where [n + 1] rounds back to [n]. *)
Definition MAX_EXACT : Z := 9007199254740992.
Definition increment (n : Z) : Z := if n <? MAX_EXACT then n + 1 else n.

End JS.

(** ** [JSON.stringify] *)

Module JSON.
Import JS.

Definition hex_digit (n : nat) : string :=
  match n with
  | 0%nat => "0" | 1%nat => "1" | 2%nat => "2" | 3%nat => "3"
  | 4%nat => "4" | 5%nat => "5" | 6%nat => "6" | 7%nat => "7"
  | 8%nat => "8" | 9%nat => "9" | 10%nat => "a" | 11%nat => "b"
  | 12%nat => "c" | 13%nat => "d" | 14%nat => "e" | _ => "f"
  end.

(** The escape of one code unit inside a JSON string. *)
Definition escape (c : ascii) : string :=
  let n := nat_of_ascii c in
  if (n =? 34)%nat then backslash ++ dquote
  else if (n =? 92)%nat then backslash ++ backslash
  else if (n =? 8)%nat then backslash ++ "b"
  else if (n =? 9)%nat then backslash ++ "t"
  else if (n =? 10)%nat then backslash ++ "n"
  else if (n =? 12)%nat then backslash ++ "f"
  else if (n =? 13)%nat then backslash ++ "r"
  else if (n <? 32)%nat then
    backslash ++ "u00" ++ hex_digit (n / 16) ++ hex_digit (n mod 16)
  else String c EmptyString.

Fixpoint escape_all (s : string) : string :=
  match s with
  | EmptyString => EmptyString
  | String c rest => escape c ++ escape_all rest
  end.

(** QuoteJSONString. *)
Definition quote (s : string) : string := dquote ++ escape_all s ++ dquote.

(** The texts of an array's elements; an element with no JSON text is
    written [null]. *)
Fixpoint elements (text_of : any -> outcome (option string)) (l : list any)
  : outcome (list string) :=
  match l with
  | [] => Ret []
  | x :: rest =>
      match text_of x with
      | Throw e => Throw e
      | Ret o =>
          match elements text_of rest with
          | Throw e => Throw e
          | Ret ss => Ret (match o with Some s => s | None => "null" end :: ss)
          end
      end
  end.

(** The [key:text] members of an object; a property with no JSON text is
    left out. *)
Fixpoint members (text_of : any -> outcome (option string))
  (l : list (string * any)) : outcome (list string) :=
  match l with
  | [] => Ret []
  | (k, x) :: rest =>
      match text_of x with
      | Throw e => Throw e
      | Ret o =>
          match members text_of rest with
          | Throw e => Throw e
          | Ret ss =>
              Ret (match o with
                   | Some s => (quote k ++ ":" ++ s) :: ss
                   | None => ss
                   end)
          end
      end
  end.

(** SerializeJSONProperty on the value domain: [None] is the [undefined] that
    the host returns for a value with no JSON text; a BigInt throws. *)
Fixpoint serialize (v : any) : outcome (option string) :=
  match v with
  | VUndefined => Ret None
  | VNull => Ret (Some "null")
  | VBool b => Ret (Some (if b then "true" else "false"))
  | VNum n => Ret (Some (Number_toString n))
  | VBigInt _ => Throw (TypeError "Do not know how to serialize a BigInt")
  | VStr s => Ret (Some (quote s))
  | VArr items =>
      match elements serialize items with
      | Throw e => Throw e
      | Ret ss => Ret (Some ("[" ++ String.concat "," ss ++ "]"))
      end
  | VObj props =>
      match members serialize props with
      | Throw e => Throw e
      | Ret ss => Ret (Some ("{" ++ String.concat "," ss ++ "}"))
      end
  | VError _ => Ret (Some "{}")
  end.

(** [JSON.stringify(v)] as a value: a string or [undefined]. *)
Definition stringify (v : any) : outcome any :=
  match serialize v with
  | Throw e => Throw e
  | Ret (Some s) => Ret (VStr s)
  | Ret None => Ret VUndefined
  end.

End JSON.


(** ** The server *)

Import JS.

(** The options object handed to [prettyFormat]. *)
Inductive Plugin : Type := ReactElement.

Record PrettyFormatOptions : Type := mkOptions {
  escapeString : bool;
  highlight : bool;
  maxDepth : Z;
  min : bool;
  plugins : list Plugin
}.

(** A client connection object of the transport, as an opaque handle. *)
Definition WebSocket : Type := nat.

(** What the module does to its collaborators, in the order it happens:
    [logger.error(...args)], [JSON.stringify(v)], [ws.send(data)] and
    [messageSocket.broadcast(command, params)]. *)
Inductive effect : Type :=
| ELog (args : list any)
| EStringify (v : any)
| ESend (ws : WebSocket) (data : any)
| EBroadcast (command params : any).

(** The variables [attachToServer] closes over ([clients], a [Map] in
    insertion order, and [nextClientId]), and the effects so far. *)
Record world : Type := mkWorld {
  clients : list (string * WebSocket);
  nextClientId : Z;
  trace : list effect
}.

(** Statements run in a world and end normally or by a throw. *)
Definition M (A : Type) : Type := world -> outcome A * world.

Definition ret {A : Type} (a : A) : M A := fun w => (Ret a, w).

Definition bind {A B : Type} (m : M A) (k : A -> M B) : M B :=
  fun w =>
    match m w with
    | (Ret a, w') => k a w'
    | (Throw e, w') => (Throw e, w')
    end.

Definition lift {A : Type} (o : outcome A) : M A := fun w => (o, w).

(** [try { body } catch (e) { handler }]. *)
Definition try_catch {A : Type} (body : M A) (handler : Error -> M A) : M A :=
  fun w =>
    match body w with
    | (Ret a, w') => (Ret a, w')
    | (Throw e, w') => handler e w'
    end.

(** The world [w] after the effects [es]. *)
Definition after (w : world) (es : list effect) : world :=
  mkWorld (clients w) (nextClientId w) (trace w ++ es).

Definition emit (e : effect) : M unit := fun w => (Ret tt, after w [e]).

Declare Scope js_scope.
Delimit Scope js_scope with js.
Notation "x <- m ;; k" := (bind m (fun x => k))
  (at level 61, m at next level, right associativity) : js_scope.
Notation "m ;; k" := (bind m (fun _ => k))
  (at level 61, right associativity) : js_scope.
Local Open Scope js_scope.

(** [for (const x of xs) { body }]. *)
Fixpoint for_of {A : Type} (xs : list A) (body : A -> M unit) : M unit :=
  match xs with
  | [] => ret tt
  | x :: rest => body x ;; for_of rest body
  end.

Definition logger_error (args : list any) : M unit := emit (ELog args).

(** [Map.prototype.set] and [Map.prototype.delete] on the entries of a map. *)
Fixpoint Map_set (k : string) (v : WebSocket) (m : list (string * WebSocket))
  : list (string * WebSocket) :=
  match m with
  | [] => [(k, v)]
  | (k', v') :: rest =>
      if (k =? k')%string then (k, v) :: rest else (k', v') :: Map_set k v rest
  end.

Fixpoint Map_delete (k : string) (m : list (string * WebSocket))
  : list (string * WebSocket) :=
  match m with
  | [] => []
  | (k', v') :: rest =>
      if (k =? k')%string then rest else (k', v') :: Map_delete k rest
  end.

Definition clients_size : M Z := fun w => (Ret (Z.of_nat (List.length (clients w))), w).

Definition clients_values : M (list WebSocket) :=
  fun w => (Ret (map snd (clients w)), w).

Definition clients_set (k : string) (v : WebSocket) : M unit :=
  fun w => (Ret tt, mkWorld (Map_set k v (clients w)) (nextClientId w) (trace w)).

Definition clients_delete (k : string) : M unit :=
  fun w => (Ret tt, mkWorld (Map_delete k (clients w)) (nextClientId w) (trace w)).

(** [nextClientId++], yielding the old value. *)
Definition nextClientId_postincrement : M Z :=
  fun w =>
    (Ret (nextClientId w),
     mkWorld (clients w) (increment (nextClientId w)) (trace w)).

Definition PROTOCOL_VERSION : Z := 2.

(** The options of the two [prettyFormat] calls of [serializeMessage]. *)
Definition error_options : PrettyFormatOptions :=
  mkOptions true true 3 true [].

Definition item_options : PrettyFormatOptions :=
  mkOptions true true 3 true [ReactElement].

(** [verifyClient({origin})]; [None] is an [undefined] origin (no header). *)
Definition verifyClient (origin : option string) : bool :=
  match origin with
  | None => true
  | Some s =>
      negb (truthy (VStr s))
      || startsWith s "http://localhost:"
      || startsWith s "file:"
  end.

(** Readings of a trace: the socket writes, the values handed to
    [JSON.stringify], and the commands forwarded. *)
Definition sends (t : list effect) : list (WebSocket * any) :=
  flat_map (fun e => match e with ESend ws d => [(ws, d)] | _ => [] end) t.

Definition stringified (t : list effect) : list any :=
  flat_map (fun e => match e with EStringify v => [v] | _ => [] end) t.

Definition broadcasts (t : list effect) : list (any * any) :=
  flat_map (fun e => match e with EBroadcast c p => [(c, p)] | _ => [] end) t.

(** [t] occurs inside [s]. *)
Definition occurs_in (t s : string) : Prop :=
  exists before after, s = before ++ t ++ after.

(** The ways [serializeMessage] can end. *)
Inductive serialized_as (w : world) : outcome any -> world -> Prop :=
| as_thrown : forall e, serialized_as w (Throw e) w
| as_rejected : forall v e,
    JSON.stringify v = Throw e ->
    serialized_as w (Ret VNull)
      (after w [EStringify v;
                ELog [VStr ("Failed to serialize: " ++ Error_toString e)]])
| as_undefined : forall v,
    JSON.stringify v = Ret VUndefined ->
    serialized_as w (Ret VUndefined) (after w [EStringify v])
| as_text : forall v text,
    JSON.stringify v = Ret (VStr text) ->
    truthy (VStr text) = true ->
    serialized_as w (Ret (VStr text)) (after w [EStringify v]).

(** The transport's signals and the reporter's calls. *)
Inductive signal : Type :=
| Connection (clientWs : WebSocket)
| Close (clientId : string)
| Failure (clientId : string)
| Message (data : string)
| Report (ev : any).

(** The number of connections in a run. *)
Fixpoint connections (evs : list signal) : nat :=
  match evs with
  | [] => O
  | Connection _ :: rest => S (connections rest)
  | _ :: rest => connections rest
  end.

(** Hosts for the examples: a decoder that knows the texts below, a renderer
    that brackets the string conversion, a socket (number 1) whose writes
    fail, and a message socket that accepts every command. *)
Module Sample.

Definition q (s : string) : string := dquote ++ s ++ dquote.

Definition reload_text (version : string) : string :=
  "{" ++ q "version" ++ ":" ++ version ++ "," ++ q "type" ++ ":" ++ q "command"
  ++ "," ++ q "command" ++ ":" ++ q "reload" ++ "}".

Definition reload (version : Z) : any :=
  VObj [("version", VNum version); ("type", VStr "command");
        ("command", VStr "reload")].

Definition parse (data : string) : outcome any :=
  if (data =? reload_text "2")%string then Ret (reload 2)
  else if (data =? reload_text "1")%string then Ret (reload 1)
  else if (data =? "null")%string then Ret VNull
  else Throw (SyntaxError "Unexpected token").

Definition render (v : any) (o : PrettyFormatOptions) : string :=
  match ToString v with
  | Ret s => "[" ++ s ++ "]"
  | Throw _ => "[Object]"
  end.

Definition send_throws (t : list effect) (ws : WebSocket) (data : any)
  : option Error :=
  if (ws =? 1)%nat then Some (mkError "Error" "WebSocket is not open") else None.

Definition broadcast_ok (t : list effect) (command params : any)
  : option Error := None.

(** Events: a plain report, a failed build with its [Error], the same with
    a field that has no JSON text, a console call, and one with no [data]. *)
Definition boom : Error := mkError "Error" "boom".

Definition foo : any := VObj [("type", VStr "foo")].

Definition foo_text : string := "{" ++ q "type" ++ ":" ++ q "foo" ++ "}".

Definition build_failed : any :=
  VObj [("type", VStr "bundle_build_failed"); ("error", VError boom)].

Definition build_failed_text : string :=
  "{" ++ q "type" ++ ":" ++ q "bundle_build_failed" ++ ","
  ++ q "error" ++ ":" ++ q "[Error: boom]" ++ "}".

Definition unencodable : any :=
  VObj [("error", VError boom); ("size", VBigInt 10)].

Definition console_log : any :=
  VObj [("type", VStr "client_log"); ("level", VStr "log");
        ("data", VArr [VStr "count"; VNum 3; VNull])].

Definition console_log_text : string :=
  "{" ++ q "type" ++ ":" ++ q "client_log" ++ "," ++ q "level" ++ ":" ++ q "log"
  ++ "," ++ q "data" ++ ":[" ++ q "count" ++ "," ++ q "[3]" ++ "," ++ q "[null]"
  ++ "]}".

Definition log_without_data : any :=
  VObj [("type", VStr "client_log"); ("level", VStr "log")].

(** A console call that carries an [Error] as well. *)
Definition log_with_error : any :=
  VObj [("type", VStr "client_log"); ("error", VError boom);
        ("data", VArr [VNum 3])].

(** Worlds with two and with three clients registered. *)
Definition two_clients : world :=
  mkWorld [("client#0", 0%nat); ("client#1", 1%nat)] 2 [].

Definition three_clients : world :=
  mkWorld [("client#0", 0%nat); ("client#1", 1%nat); ("client#2", 2%nat)] 3 [].

(** Three connections, the first of them closed before the third. *)
Definition session : list signal :=
  [Connection 0%nat; Connection 1%nat; Close "client#0"; Connection 2%nat].

Definition send_failure : effect :=
  ELog [VStr ("Failed to send broadcast to client due to:" ++ newline
              ++ " Error: WebSocket is not open")].

End Sample.

(** The world in which [attachToServer] leaves its closures. *)
Definition attached : world := mkWorld [] 0 [].

(** The id of the [k]-th connection while the counter is exact. *)
Definition client_id (k : Z) : string := "client#" ++ Number_toString k.

(** [start; start + 1; ...], [n] numbers. *)
Fixpoint upto (start : Z) (n : nat) : list Z :=
  match n with
  | O => []
  | S m => start :: upto (start + 1) m
  end.

(** The values [nextClientId++] yields in [n] successive evaluations that
    start at [c]. *)
Fixpoint counters (c : Z) (n : nat) : list Z :=
  match n with
  | O => []
  | S m => c :: counters (increment c) m
  end.

(** Whether a close or error signal for [clientId] is among [evs]. *)
Fixpoint closed_in (clientId : string) (evs : list signal) : bool :=
  match evs with
  | [] => false
  | Close id :: rest | Failure id :: rest =>
      (id =? clientId)%string || closed_in clientId rest
  | _ :: rest => closed_in clientId rest
  end.

(** The connections of [evs] that no later signal of [evs] closes, each
    with its id, when the ids are counted up from [c]. *)
Fixpoint still_open (c : Z) (evs : list signal) : list (string * WebSocket) :=
  match evs with
  | [] => []
  | Connection clientWs :: rest =>
      if closed_in (client_id c) rest then still_open (c + 1) rest
      else (client_id c, clientWs) :: still_open (c + 1) rest
  | _ :: rest => still_open c rest
  end.

Section Server.

(** [JSON.parse]: the decoded value, or a thrown [SyntaxError]. *)
Variable JSON_parse : string -> outcome any.

(** [prettyFormat(value, options)] of the pretty-format package. *)
Variable prettyFormat : any -> PrettyFormatOptions -> string.

(** Whether [ws.send(data)] throws, given everything that happened before. *)
Variable ws_send_throws : list effect -> WebSocket -> any -> option Error.

(** Whether [messageSocket.broadcast(command, params)] throws. *)
Variable broadcast_throws : list effect -> any -> any -> option Error.

Definition JSON_stringify (v : any) : M any :=
  emit (EStringify v) ;; lift (JSON.stringify v).

Definition ws_send (ws : WebSocket) (data : any) : M unit :=
  fun w =>
    let w' := after w [ESend ws data] in
    match ws_send_throws (trace w) ws data with
    | Some e => (Throw e, w')
    | None => (Ret tt, w')
    end.

Definition messageSocket_broadcast (command params : any) : M unit :=
  fun w =>
    let w' := after w [EBroadcast command params] in
    match broadcast_throws (trace w) command params with
    | Some e => (Throw e, w')
    | None => (Ret tt, w')
    end.

(** [parseMessage(data)]: the [try] block yields [Some message] where the
    source returns from inside it, and [None] where control falls through to
    the final [return undefined]. *)
Definition parseMessage (data : string) : M any :=
  returned <-
    try_catch
      (message <- lift (JSON_parse data) ;;
       version <- lift (Get message "version") ;;
       if strict_eq version (VNum PROTOCOL_VERSION) then ret (Some message)
       else
         shown <- lift (ToString version) ;;
         logger_error
           [VStr ("Received message had wrong protocol version: " ++ shown)] ;;
         ret None)
      (fun _ =>
         logger_error
           [VStr ("Failed to parse the message as JSON:" ++ newline ++ data)] ;;
         ret None) ;;
  match returned with
  | Some message => ret message
  | None => ret VUndefined
  end.

(** [message && message.error && message.error instanceof Error]. *)
Definition has_Error (message : any) : M bool :=
  if truthy message then
    error <- lift (Get message "error") ;;
    if truthy error then
      error' <- lift (Get message "error") ;;
      ret (instanceof_Error error')
    else ret false
  else ret false.

(** [message && message.type === 'client_log']. *)
Definition is_client_log (message : any) : M bool :=
  if truthy message then
    type <- lift (Get message "type") ;;
    ret (strict_eq type (VStr "client_log"))
  else ret false.

(** The first half of [serializeMessage]: the value of [toSerialize] when the
    [try] block is reached. *)
Definition toSerialize (message : any) : M any :=
  c1 <- has_Error message ;;
  if c1 then
    error <- lift (Get message "error") ;;
    ret (VObj (define "error" (VStr (prettyFormat error error_options))
                 (own_enumerable message)))
  else
    c2 <- is_client_log message ;;
    if c2 then
      data <- lift (Get message "data") ;;
      mapped <-
        lift (call_map data
                (fun item =>
                   if typeof_string item then item
                   else VStr (prettyFormat item item_options))) ;;
      ret (VObj (define "data" mapped (own_enumerable message)))
    else ret message.

Definition serializeMessage (message : any) : M any :=
  toSerialize <- toSerialize message ;;
  try_catch
    (JSON_stringify toSerialize)
    (fun e =>
       logger_error [VStr ("Failed to serialize: " ++ Error_toString e)] ;;
       ret VNull).

(** The body of the loop of [broadCastEvent]. *)
Definition send_or_log (serialized : any) (ws : WebSocket) : M unit :=
  try_catch
    (ws_send ws serialized)
    (fun e =>
       logger_error
         [VStr ("Failed to send broadcast to client due to:" ++ newline
                ++ " " ++ Error_toString e)]).

Definition broadCastEvent (message : any) : M unit :=
  size <- clients_size ;;
  if negb (truthy (VNum size)) then ret tt
  else
    serialized <- serializeMessage message ;;
    if negb (truthy serialized) then ret tt
    else
      values <- clients_values ;;
      for_of values (send_or_log serialized).

(** The [connection] handler up to the installation of the callbacks; it
    yields the [clientId] that the callbacks close over. *)
Definition connection (clientWs : WebSocket) : M string :=
  n <- nextClientId_postincrement ;;
  let clientId := "client#" ++ Number_toString n in
  clients_set clientId clientWs ;;
  ret clientId.

(** [clientWs.onclose = clientWs.onerror = () => clients.delete(clientId)]. *)
Definition onclose (clientId : string) : M unit := clients_delete clientId.
Definition onerror (clientId : string) : M unit := clients_delete clientId.

(** [clientWs.onmessage], on the text [event.data.toString()]. *)
Definition onmessage (data : string) : M unit :=
  message <- parseMessage data ;;
  if is_nullish message then ret tt
  else
    type <- lift (Get message "type") ;;
    if strict_eq type (VStr "command") then
      try_catch
        (command <- lift (Get message "command") ;;
         params <- lift (Get message "params") ;;
         messageSocket_broadcast command params)
        (fun e =>
           logger_error
             [VStr "Failed to forward message to clients: "; VError e])
    else
      type' <- lift (Get message "type") ;;
      logger_error [VStr "Unknown message type: "; type'].

Definition reportEvent (event : any) : M unit := broadCastEvent event.

(** The server's reaction to one signal or call; a connection yields the id
    it was given.  A handler that throws hands the exception to its caller;
    the server's variables stay as the handler left them. *)
Definition react (ev : signal) (w : world) : option string * world :=
  match ev with
  | Connection clientWs =>
      match connection clientWs w with
      | (Ret clientId, w') => (Some clientId, w')
      | (Throw _, w') => (None, w')
      end
  | Close clientId => (None, snd (onclose clientId w))
  | Failure clientId => (None, snd (onerror clientId w))
  | Message data => (None, snd (onmessage data w))
  | Report ev => (None, snd (reportEvent ev w))
  end.

(** The ids given out along a run, in order, and the world it ends in. *)
Fixpoint run (evs : list signal) (w : world) : list string * world :=
  match evs with
  | [] => ([], w)
  | ev :: rest =>
      let (given, w') := react ev w in
      let (ids, w'') := run rest w' in
      (match given with Some id => id :: ids | None => ids end, w'')
  end.

(** * Properties *)

(** ** The admission check *)

Lemma startsWith_spec : forall p s,
  startsWith s p = true <-> exists rest, s = p ++ rest.
Proof.
  unfold startsWith.
  induction p as [|a p IH]; intros s.
  - split; [intros _; exists s; reflexivity | intros _; destruct s; reflexivity].
  - destruct s as [|b s]; simpl.
    + split; [discriminate | intros [rest H]; discriminate H].
    + destruct (ascii_dec a b) as [->|Hab].
      * rewrite IH. split; intros [rest H]; exists rest.
        -- now rewrite H.
        -- now inversion H.
      * split; [discriminate | intros [rest H]; inversion H; subst; now elim Hab].
Qed.

(** C8 (as amended).  [verifyClient] accepts exactly an origin that is absent
    or empty, or that begins with [http://localhost:] or with [file:]; so it
    accepts [http://localhost:19000] and no header at all, and rejects
    [https://evil.example.com]. *)
Theorem verifyClient_accepts_exactly :
  (forall origin,
     verifyClient origin = true <->
     origin = None \/ origin = Some "" \/
     exists s rest,
       origin = Some s /\
       (s = "http://localhost:" ++ rest \/ s = "file:" ++ rest))
  /\ verifyClient None = true
  /\ verifyClient (Some "http://localhost:19000") = true
  /\ verifyClient (Some "https://evil.example.com") = false.
Proof.
  split; [|repeat split; reflexivity].
  intros [s|]; simpl.
  - rewrite !orb_true_iff, !startsWith_spec. split.
    + intros [[He|[rest H]]|[rest H]].
      * right; left. destruct s; [reflexivity | discriminate He].
      * right; right. exists s, rest. auto.
      * right; right. exists s, rest. auto.
    + intros [H|[H|(s' & rest & H & [H'|H'])]]; try discriminate H.
      * inversion H; subst. left; left. reflexivity.
      * inversion H; subst. left; right. now exists rest.
      * inversion H; subst. right. now exists rest.
  - split; auto.
Qed.

(** C8, as the specification words it, fails for the empty origin: it is
    neither absent nor does it begin with one of the two prefixes, and
    [!origin] accepts it. *)
Lemma verifyClient_empty_origin_accepted :
  ~ (forall origin,
       verifyClient origin = true <->
       origin = None \/
       exists s rest,
         origin = Some s /\
         (s = "http://localhost:" ++ rest \/ s = "file:" ++ rest)).
Proof.
  intros H. destruct (H (Some "")) as [H1 _].
  destruct (H1 eq_refl) as [H2|(s & rest & H2 & [H3|H3])].
  - discriminate H2.
  - inversion H2 as [Hs]. rewrite <- Hs in H3. discriminate H3.
  - inversion H2 as [Hs]. rewrite <- Hs in H3. discriminate H3.
Qed.

(** ** Values *)

Lemma strict_eq_VNum : forall v n, strict_eq v (VNum n) = true <-> v = VNum n.
Proof.
  intros v n. destruct v; simpl; try (split; [discriminate | discriminate]).
  rewrite Z.eqb_eq. split; [intros ->; reflexivity | now inversion 1].
Qed.

Lemma strict_eq_VStr : forall v s, strict_eq v (VStr s) = true <-> v = VStr s.
Proof.
  intros v s. destruct v; simpl; try (split; [discriminate | discriminate]).
  rewrite String.eqb_eq. split; [intros ->; reflexivity | now inversion 1].
Qed.

Lemma Get_Ret_not_nullish : forall v k x, Get v k = Ret x -> is_nullish v = false.
Proof. intros v k x H. destruct v; try reflexivity; discriminate H. Qed.

Lemma truthy_Get : forall v k, truthy v = true -> exists x, Get v k = Ret x.
Proof. intros v k H. destruct v; try discriminate H; simpl; eauto. Qed.

Lemma after_nil : forall w, after w [] = w.
Proof. intros [c n t]. unfold after. simpl. now rewrite app_nil_r. Qed.

Lemma after_after : forall w es es', after (after w es) es' = after w (es ++ es').
Proof. intros w es es'. unfold after. simpl. now rewrite app_assoc. Qed.

(** ** The inbound codec *)

Ltac run_M :=
  unfold bind, try_catch, lift, ret, logger_error, emit; simpl.

Lemma parseMessage_accept : forall data w message,
  JSON_parse data = Ret message ->
  Get message "version" = Ret (VNum PROTOCOL_VERSION) ->
  parseMessage data w = (Ret message, w).
Proof.
  intros data w message Hp Hv. unfold parseMessage. run_M.
  rewrite Hp, Hv. reflexivity.
Qed.

Lemma parseMessage_undecodable : forall data w e,
  JSON_parse data = Throw e ->
  parseMessage data w =
  (Ret VUndefined,
   after w [ELog [VStr ("Failed to parse the message as JSON:" ++ newline ++ data)]]).
Proof.
  intros data w e Hp. unfold parseMessage. run_M. rewrite Hp. reflexivity.
Qed.

Lemma parseMessage_wrong_version : forall data w message,
  JSON_parse data = Ret message ->
  Get message "version" <> Ret (VNum PROTOCOL_VERSION) ->
  exists text, parseMessage data w = (Ret VUndefined, after w [ELog [VStr text]]).
Proof.
  intros data w message Hp Hv. unfold parseMessage. run_M. rewrite Hp.
  destruct (Get message "version") as [version|e] eqn:Hg; [|eauto].
  destruct (strict_eq version (VNum PROTOCOL_VERSION)) eqn:Hs.
  - apply strict_eq_VNum in Hs. subst version. now elim Hv.
  - destruct (ToString version); eauto.
Qed.

(** C5.  [parseMessage] yields [undefined] exactly when [JSON.parse] throws
    or the decoded value's [version] is not the number 2 (a value that has no
    [version] to read included); a decoded value whose [version] is 2 is
    returned as it is, whatever else it holds, and nothing is logged. *)
Theorem parseMessage_rejects_exactly : forall data w,
  (fst (parseMessage data w) = Ret VUndefined <->
   (exists e, JSON_parse data = Throw e) \/
   (exists message,
      JSON_parse data = Ret message /\
      Get message "version" <> Ret (VNum 2)))
  /\ (forall message,
        JSON_parse data = Ret message ->
        Get message "version" = Ret (VNum 2) ->
        parseMessage data w = (Ret message, w)).
Proof.
  intros data w. split; [|intros message; apply parseMessage_accept].
  destruct (JSON_parse data) as [message|e] eqn:Hp.
  - destruct (Get message "version") as [version|e] eqn:Hg.
    + destruct (strict_eq version (VNum 2)) eqn:Hs.
      * apply strict_eq_VNum in Hs. subst version.
        rewrite (parseMessage_accept data w message Hp Hg). simpl. split.
        -- intros H. inversion H; subst. discriminate Hg.
        -- intros [[e H]|(m & H & Hm)]; [discriminate H|].
           inversion H; subst. now elim Hm.
      * assert (Hv : Get message "version" <> Ret (VNum PROTOCOL_VERSION)).
        { rewrite Hg. intros H. inversion H; subst.
          now rewrite (proj2 (strict_eq_VNum _ _) eq_refl) in Hs. }
        destruct (parseMessage_wrong_version data w message Hp Hv) as [text ->].
        split; [|reflexivity]. intros _. right. exists message.
        rewrite Hg. split; [reflexivity|]. now rewrite <- Hg.
    + assert (Hv : Get message "version" <> Ret (VNum PROTOCOL_VERSION))
        by (rewrite Hg; discriminate).
      destruct (parseMessage_wrong_version data w message Hp Hv) as [text ->].
      split; [|reflexivity]. intros _. right. exists message.
      split; [reflexivity|]. rewrite Hg. discriminate.
  - rewrite (parseMessage_undecodable data w e Hp). simpl.
    split; [|reflexivity]. intros _. left. now exists e.
Qed.

(** ** The command relay *)

Lemma broadcasts_app : forall t t', broadcasts (t ++ t') = (broadcasts t ++ broadcasts t')%list.
Proof. intros t t'. unfold broadcasts. apply flat_map_app. Qed.

Lemma sends_app : forall t t', sends (t ++ t') = (sends t ++ sends t')%list.
Proof. intros t t'. unfold sends. apply flat_map_app. Qed.

Lemma stringified_app : forall t t',
  stringified (t ++ t') = (stringified t ++ stringified t')%list.
Proof. intros t t'. unfold stringified. apply flat_map_app. Qed.

Lemma Get_total_on_readable : forall v k x k',
  Get v k = Ret x -> exists x', Get v k' = Ret x'.
Proof. intros v k x k' H. destruct v; try discriminate H; simpl; eauto. Qed.

(** C6.  A message whose decoded [version] is not 2 is logged and dropped:
    [onmessage] returns normally, leaves the registry alone and never calls
    [messageSocket.broadcast]. *)
Theorem onmessage_wrong_version_not_relayed : forall data w message,
  JSON_parse data = Ret message ->
  Get message "version" <> Ret (VNum 2) ->
  (exists text, onmessage data w = (Ret tt, after w [ELog [VStr text]]))
  /\ broadcasts (trace (snd (onmessage data w))) = broadcasts (trace w).
Proof.
  intros data w message Hp Hv.
  destruct (parseMessage_wrong_version data w message Hp Hv) as [text Hm].
  assert (H : onmessage data w = (Ret tt, after w [ELog [VStr text]])).
  { unfold onmessage, bind. rewrite Hm. reflexivity. }
  split; [now exists text|].
  rewrite H. simpl. rewrite broadcasts_app. simpl. apply app_nil_r.
Qed.

(** C7.  A message that [parseMessage] accepts has its [type] compared with
    ['command'].  On a match [messageSocket.broadcast] is called once, with
    the message's [command] and [params]; if the call throws, the error is
    logged.  Otherwise the type is logged and nothing else happens.  Either
    way [onmessage] returns normally and the registry is as before. *)
Theorem onmessage_relays_command : forall data w message,
  JSON_parse data = Ret message ->
  Get message "version" = Ret (VNum 2) ->
  exists type command params,
    Get message "type" = Ret type
    /\ Get message "command" = Ret command
    /\ Get message "params" = Ret params
    /\ (type = VStr "command" ->
        onmessage data w =
        (Ret tt,
         after w
           (EBroadcast command params ::
            match broadcast_throws (trace w) command params with
            | Some e =>
                [ELog [VStr "Failed to forward message to clients: "; VError e]]
            | None => []
            end))
        /\ broadcasts (trace (snd (onmessage data w))) =
           (broadcasts (trace w) ++ [(command, params)])%list)
    /\ (type <> VStr "command" ->
        onmessage data w =
        (Ret tt, after w [ELog [VStr "Unknown message type: "; type]])
        /\ broadcasts (trace (snd (onmessage data w))) = broadcasts (trace w)).
Proof.
  intros data w message Hp Hv.
  destruct (Get_total_on_readable _ _ _ "type" Hv) as [type Ht].
  destruct (Get_total_on_readable _ _ _ "command" Hv) as [command Hc].
  destruct (Get_total_on_readable _ _ _ "params" Hv) as [params Hq].
  exists type, command, params. repeat (split; [assumption|]).
  pose proof (parseMessage_accept data w message Hp Hv) as Hm.
  pose proof (Get_Ret_not_nullish _ _ _ Hv) as Hn.
  split.
  - intros ->.
    assert (H : onmessage data w =
                (Ret tt,
                 after w
                   (EBroadcast command params ::
                    match broadcast_throws (trace w) command params with
                    | Some e =>
                        [ELog [VStr "Failed to forward message to clients: ";
                               VError e]]
                    | None => []
                    end))).
    { unfold onmessage, bind. rewrite Hm, Hn. unfold lift at 1. rewrite Ht.
      simpl. unfold try_catch, bind, lift, messageSocket_broadcast.
      rewrite Hc, Hq.
      destruct (broadcast_throws (trace w) command params); [|reflexivity].
      unfold logger_error, emit. now rewrite after_after. }
    split; [exact H|]. rewrite H. simpl. rewrite broadcasts_app. f_equal.
    simpl. now destruct (broadcast_throws (trace w) command params).
  - intros Hne.
    assert (H : onmessage data w =
                (Ret tt, after w [ELog [VStr "Unknown message type: "; type]])).
    { unfold onmessage, bind. rewrite Hm, Hn. unfold lift at 1. rewrite Ht.
      destruct (strict_eq type (VStr "command")) eqn:Hs.
      - apply strict_eq_VStr in Hs. now elim Hne.
      - reflexivity. }
    split; [exact H|]. rewrite H. simpl. rewrite broadcasts_app. simpl.
    apply app_nil_r.
Qed.

(** ** JSON texts *)

Lemma string_app_assoc : forall a b c : string, (a ++ b) ++ c = a ++ (b ++ c).
Proof. induction a as [|x a IH]; intros b c; simpl; [|rewrite IH]; reflexivity. Qed.

Lemma string_app_nil_r : forall a : string, a ++ "" = a.
Proof. induction a as [|x a IH]; simpl; [|rewrite IH]; reflexivity. Qed.

Lemma occurs_in_refl : forall s, occurs_in s s.
Proof. intros s. exists "", "". simpl. now rewrite string_app_nil_r. Qed.

Lemma occurs_in_wrap : forall t s a b, occurs_in t s -> occurs_in t (a ++ s ++ b).
Proof.
  intros t s a b (x & y & ->). exists (a ++ x), (y ++ b).
  now rewrite !string_app_assoc.
Qed.

Lemma occurs_in_concat : forall sep x ss, In x ss -> occurs_in x (String.concat sep ss).
Proof.
  intros sep x ss. induction ss as [|y ss IH]; intros Hin; [contradiction|].
  destruct Hin as [->|Hin].
  - destruct ss as [|z ss]; simpl.
    + apply occurs_in_refl.
    + exists "", (sep ++ String.concat sep (z :: ss)). reflexivity.
  - destruct ss as [|z ss]; [contradiction|].
    change (String.concat sep (y :: z :: ss))
      with (y ++ sep ++ String.concat sep (z :: ss)).
    rewrite <- string_app_assoc.
    rewrite <- (string_app_nil_r (String.concat sep (z :: ss))).
    apply occurs_in_wrap. auto.
Qed.

Lemma members_In : forall text_of props ss k x sx,
  JSON.members text_of props = Ret ss ->
  In (k, x) props ->
  text_of x = Ret (Some sx) ->
  In (JSON.quote k ++ ":" ++ sx) ss.
Proof.
  intros text_of props. induction props as [|[k' x'] props IH];
    intros ss k x sx Hm Hin Hx; [contradiction|].
  simpl in Hm.
  destruct (text_of x') as [o|e] eqn:Hx'; [|discriminate Hm].
  destruct (JSON.members text_of props) as [ss'|e]; [|discriminate Hm].
  destruct Hin as [Heq|Hin].
  - inversion Heq; subst. rewrite Hx in Hx'. inversion Hx'; subst.
    inversion Hm; subst. now left.
  - specialize (IH ss' k x sx eq_refl Hin Hx).
    destruct o; inversion Hm; subst; [now right | assumption].
Qed.

Lemma serialize_member : forall props text k x sx,
  JSON.serialize (VObj props) = Ret (Some text) ->
  In (k, x) props ->
  JSON.serialize x = Ret (Some sx) ->
  occurs_in (JSON.quote k ++ ":" ++ sx) text.
Proof.
  intros props text k x sx Hs Hin Hx. simpl in Hs.
  destruct (JSON.members JSON.serialize props) as [ss|e] eqn:Hm;
    [|discriminate Hs].
  inversion Hs; subst.
  apply (occurs_in_wrap _ (String.concat "," ss) "{" "}").
  apply occurs_in_concat. eapply members_In; eauto.
Qed.

Lemma elements_strings : forall l,
  JSON.elements JSON.serialize (map VStr l) = Ret (map JSON.quote l).
Proof.
  induction l as [|s l IH]; simpl; [reflexivity|]. now rewrite IH.
Qed.

Lemma stringify_VObj : forall props,
  match JSON.stringify (VObj props) with
  | Ret (VStr text) => JSON.serialize (VObj props) = Ret (Some text)
  | Ret _ => False
  | Throw _ => True
  end.
Proof.
  intros props. unfold JSON.stringify. simpl.
  now destruct (JSON.members JSON.serialize props).
Qed.

Lemma define_In : forall k x props, In (k, x) (define k x props).
Proof.
  intros k x props. induction props as [|[k' v] props IH]; simpl; [now left|].
  destruct (k =? k')%string; [now left | now right].
Qed.

Lemma lookup_define : forall k x props, lookup k (define k x props) = Some x.
Proof.
  intros k x props. induction props as [|[k' v] props IH]; simpl.
  - now rewrite String.eqb_refl.
  - destruct (k =? k')%string eqn:E; simpl.
    + now rewrite String.eqb_refl.
    + now rewrite E.
Qed.

(** ** The outbound codec *)

Lemma has_Error_true : forall message e w,
  Get message "error" = Ret (VError e) -> has_Error message w = (Ret true, w).
Proof.
  intros message e w H. destruct message; try discriminate H.
  unfold has_Error, bind, lift, ret. simpl truthy. cbv iota.
  rewrite H. reflexivity.
Qed.

Lemma has_Error_false : forall message w,
  (forall e, Get message "error" <> Ret (VError e)) ->
  has_Error message w = (Ret false, w).
Proof.
  intros message w H. unfold has_Error.
  destruct (truthy message) eqn:Ht; [|reflexivity].
  destruct (truthy_Get message "error" Ht) as [error He].
  unfold bind, lift, ret. rewrite He.
  destruct (truthy error); [|reflexivity].
  destruct error; try reflexivity. now elim (H e).
Qed.

Lemma is_client_log_true : forall message w,
  Get message "type" = Ret (VStr "client_log") ->
  is_client_log message w = (Ret true, w).
Proof.
  intros message w H. destruct message; try discriminate H.
  unfold is_client_log, bind, lift, ret. simpl truthy. cbv iota.
  rewrite H. reflexivity.
Qed.

Lemma toSerialize_error : forall message e w,
  Get message "error" = Ret (VError e) ->
  toSerialize message w =
  (Ret (VObj (define "error" (VStr (prettyFormat (VError e) error_options))
                (own_enumerable message))), w).
Proof.
  intros message e w H. unfold toSerialize, bind.
  rewrite (has_Error_true message e w H). unfold lift, ret. now rewrite H.
Qed.

Lemma toSerialize_client_log : forall message data w,
  (forall e, Get message "error" <> Ret (VError e)) ->
  Get message "type" = Ret (VStr "client_log") ->
  Get message "data" = Ret data ->
  toSerialize message w =
  match
    call_map data
      (fun item =>
         if typeof_string item then item
         else VStr (prettyFormat item item_options))
  with
  | Ret mapped =>
      (Ret (VObj (define "data" mapped (own_enumerable message))), w)
  | Throw e => (Throw e, w)
  end.
Proof.
  intros message data w He Ht Hd. unfold toSerialize, bind.
  rewrite (has_Error_false message w He), (is_client_log_true message w Ht).
  unfold lift, ret. rewrite Hd. now destruct (call_map data _).
Qed.

Lemma serializeMessage_run : forall message w v,
  toSerialize message w = (Ret v, w) ->
  serializeMessage message w =
  match JSON.stringify v with
  | Ret text => (Ret text, after w [EStringify v])
  | Throw e =>
      (Ret VNull,
       after w [EStringify v;
                ELog [VStr ("Failed to serialize: " ++ Error_toString e)]])
  end.
Proof.
  intros message w v H. unfold serializeMessage, bind at 1. rewrite H.
  unfold try_catch, JSON_stringify, bind, emit, lift, logger_error, ret.
  destruct (JSON.stringify v); [reflexivity|].
  unfold emit. now rewrite after_after.
Qed.

Lemma serializeMessage_throws : forall message w e,
  toSerialize message w = (Throw e, w) ->
  serializeMessage message w = (Throw e, w).
Proof.
  intros message w e H. unfold serializeMessage, bind. now rewrite H.
Qed.

(** C3 (as amended).  For an event whose [error] is an [Error],
    [serializeMessage] never throws.  It encodes the event with [error]
    replaced by the text that [prettyFormat] renders with [maxDepth: 3],
    [min: true] and [escapeString: true].  When that encoding succeeds the
    result is its text, in which the [error] member is that rendering as a
    JSON string; when it throws (another field has no encoding) the failure
    is logged and the result is [null]. *)
Theorem serializeMessage_error_event : forall event e w,
  Get event "error" = Ret (VError e) ->
  let rendering := prettyFormat (VError e) error_options in
  let rewritten :=
    VObj (define "error" (VStr rendering) (own_enumerable event)) in
  Get rewritten "error" = Ret (VStr rendering)
  /\ maxDepth error_options = 3
  /\ min error_options = true
  /\ escapeString error_options = true
  /\ match JSON.stringify rewritten with
     | Ret (VStr text) =>
         serializeMessage event w =
         (Ret (VStr text), after w [EStringify rewritten])
         /\ occurs_in (JSON.quote "error" ++ ":" ++ JSON.quote rendering) text
     | Ret _ => False
     | Throw thrown =>
         serializeMessage event w =
         (Ret VNull,
          after w
            [EStringify rewritten;
             ELog [VStr ("Failed to serialize: " ++ Error_toString thrown)]])
     end.
Proof.
  intros event e w H rendering rewritten.
  split; [unfold rewritten; simpl; now rewrite lookup_define|].
  repeat (split; [reflexivity|]).
  pose proof (serializeMessage_run event w rewritten
                (toSerialize_error event e w H)) as Hrun.
  pose proof (stringify_VObj
                (define "error" (VStr rendering) (own_enumerable event))) as Hs.
  fold rewritten in Hs.
  destruct (JSON.stringify rewritten) as [[]|thrown]; try contradiction;
    [|exact Hrun].
  split; [exact Hrun|].
  eapply serialize_member; [exact Hs | apply define_In | reflexivity].
Qed.

(** C4.  For a [client_log] event whose [error] is no [Error] and whose
    [data] is an array, the object that [serializeMessage] encodes has a
    [data] array of the same length, in which a string stands as it was and
    every other element is the text [prettyFormat] renders with
    [maxDepth: 3]; the payload holds that array as its [data] member. *)
Theorem serializeMessage_client_log : forall event items w,
  (forall e, Get event "error" <> Ret (VError e)) ->
  Get event "type" = Ret (VStr "client_log") ->
  Get event "data" = Ret (VArr items) ->
  let text_of := fun item =>
    match item with
    | VStr s => s
    | _ => prettyFormat item item_options
    end in
  let rewritten :=
    VObj (define "data" (VArr (map VStr (map text_of items)))
            (own_enumerable event)) in
  Get rewritten "data" = Ret (VArr (map VStr (map text_of items)))
  /\ List.length (map text_of items) = List.length items
  /\ (forall i s, nth_error items i = Some (VStr s) ->
      nth_error (map text_of items) i = Some s)
  /\ (forall i item, nth_error items i = Some item ->
      typeof_string item = false ->
      nth_error (map text_of items) i = Some (prettyFormat item item_options))
  /\ maxDepth item_options = 3
  /\ match JSON.stringify rewritten with
     | Ret (VStr text) =>
         serializeMessage event w =
         (Ret (VStr text), after w [EStringify rewritten])
         /\ occurs_in
              (JSON.quote "data" ++ ":[" ++
               String.concat "," (map JSON.quote (map text_of items)) ++ "]")
              text
     | Ret _ => False
     | Throw thrown =>
         serializeMessage event w =
         (Ret VNull,
          after w
            [EStringify rewritten;
             ELog [VStr ("Failed to serialize: " ++ Error_toString thrown)]])
     end.
Proof.
  intros event items w He Ht Hd text_of rewritten.
  set (mapped := VArr (map VStr (map text_of items))) in *.
  assert (Hmap : map (fun item =>
                        if typeof_string item then item
                        else VStr (prettyFormat item item_options)) items
                 = map VStr (map text_of items)).
  { rewrite map_map. apply map_ext. intros item. now destruct item. }
  split; [unfold rewritten; simpl; now rewrite lookup_define|].
  split; [apply length_map|].
  split; [intros i s Hi; now rewrite nth_error_map, Hi|].
  split; [intros i item Hi Hty; rewrite nth_error_map, Hi;
          destruct item; try reflexivity; discriminate Hty|].
  split; [reflexivity|].
  pose proof (toSerialize_client_log event (VArr items) w He Ht Hd) as Hto.
  simpl in Hto. rewrite Hmap in Hto. fold mapped in Hto. fold rewritten in Hto.
  pose proof (serializeMessage_run event w _ Hto) as Hrun.
  pose proof (stringify_VObj (define "data" mapped (own_enumerable event)))
    as Hs.
  fold rewritten in Hs.
  destruct (JSON.stringify rewritten) as [[]|thrown]; try contradiction;
    [|exact Hrun].
  split; [exact Hrun|].
  eapply serialize_member; [exact Hs | apply define_In |].
  unfold mapped. simpl. now rewrite elements_strings.
Qed.

Lemma broadCastEvent_unfold : forall message w,
  broadCastEvent message w =
  match clients w with
  | [] => (Ret tt, w)
  | _ :: _ =>
      match serializeMessage message w with
      | (Ret serialized, w1) =>
          if truthy serialized
          then for_of (map snd (clients w1)) (send_or_log serialized) w1
          else (Ret tt, w1)
      | (Throw e, w1) => (Throw e, w1)
      end
  end.
Proof.
  intros message w. unfold broadCastEvent, bind, clients_size.
  destruct (clients w) as [|c cs] eqn:Hc; [reflexivity|].
  assert (Hsize : negb (truthy (VNum (Z.of_nat (List.length (c :: cs))))) = false).
  { simpl truthy. destruct (Z.eqb_spec (Z.of_nat (List.length (c :: cs))) 0) as [E|_];
      [simpl in E; lia | reflexivity]. }
  rewrite Hsize.
  destruct (serializeMessage message w) as [[serialized|e] w1]; [|reflexivity].
  destruct (truthy serialized); reflexivity.
Qed.

(** C10.  [serializeMessage] maps over [message.data] outside its [try]
    block.  For a [client_log] event whose [error] is no [Error] and whose
    [data] is not an array (absent, say), it throws a [TypeError]: nothing is
    encoded and nothing is logged, and when a client is registered the
    exception leaves [reportEvent] as well. *)
Theorem serializeMessage_client_log_without_array : forall event data w,
  (forall e, Get event "error" <> Ret (VError e)) ->
  Get event "type" = Ret (VStr "client_log") ->
  Get event "data" = Ret data ->
  (forall items, data <> VArr items) ->
  exists thrown,
    error_name thrown = "TypeError"
    /\ serializeMessage event w = (Throw thrown, w)
    /\ (clients w <> [] -> reportEvent event w = (Throw thrown, w)).
Proof.
  intros event data w He Ht Hd Hna.
  pose proof (toSerialize_client_log event data w He Ht Hd) as Hto.
  assert (Hc : exists thrown,
             error_name thrown = "TypeError" /\
             call_map data
               (fun item =>
                  if typeof_string item then item
                  else VStr (prettyFormat item item_options)) = Throw thrown).
  { destruct data as [| |b|n|n|s|its|props|e']; simpl;
      try (eexists; split; [|reflexivity]; reflexivity).
    now elim (Hna its). }
  destruct Hc as (thrown & Hname & Hc). rewrite Hc in Hto.
  exists thrown. split; [exact Hname|].
  pose proof (serializeMessage_throws event w thrown Hto) as Hs.
  split; [exact Hs|].
  intros Hne. unfold reportEvent. rewrite broadCastEvent_unfold.
  destruct (clients w); [now elim Hne|]. now rewrite Hs.
Qed.

(** ** The broadcast dispatcher *)

Lemma has_Error_pure : forall message w, exists b, has_Error message w = (Ret b, w).
Proof.
  intros message w. unfold has_Error.
  destruct (truthy message) eqn:Ht; [|now exists false].
  destruct (truthy_Get message "error" Ht) as [error He].
  unfold bind, lift, ret. rewrite He. destruct (truthy error); eauto.
Qed.

Lemma is_client_log_pure : forall message w,
  exists b, is_client_log message w = (Ret b, w).
Proof.
  intros message w. unfold is_client_log.
  destruct (truthy message) eqn:Ht; [|now exists false].
  destruct (truthy_Get message "type" Ht) as [type He].
  unfold bind, lift, ret. rewrite He. eauto.
Qed.

Lemma toSerialize_pure : forall message w, exists o, toSerialize message w = (o, w).
Proof.
  intros message w. unfold toSerialize, bind at 1.
  destruct (has_Error_pure message w) as [c1 ->]. destruct c1.
  - unfold bind, lift, ret. destruct (Get message "error"); eauto.
  - unfold bind at 1. destruct (is_client_log_pure message w) as [c2 ->].
    destruct c2; [|unfold ret; eauto].
    unfold bind, lift, ret. destruct (Get message "data"); eauto.
    destruct (call_map a _); eauto.
Qed.

Lemma Number_toString_nonempty : forall n, Number_toString n <> "".
Proof.
  intros n. unfold Number_toString, NilZero.string_of_int.
  destruct (Z.to_int n) as [d|d]; [|discriminate].
  unfold NilZero.string_of_uint. destruct d; discriminate.
Qed.

Lemma serialize_nonempty : forall v text,
  JSON.serialize v = Ret (Some text) -> text <> "".
Proof.
  intros v text H. destruct v; simpl in H; try discriminate H;
    try (inversion H; subst; discriminate).
  - inversion H; subst. now destruct b.
  - inversion H; subst. apply Number_toString_nonempty.
  - destruct (JSON.elements JSON.serialize items); inversion H; discriminate.
  - destruct (JSON.members JSON.serialize props); inversion H; discriminate.
Qed.

(** What [JSON.stringify] returns is [undefined] or a string that is not
    empty, so [!serialized] tells the two apart. *)
Lemma stringify_result : forall v r,
  JSON.stringify v = Ret r ->
  (r = VUndefined /\ truthy r = false)
  \/ (exists text, r = VStr text /\ truthy r = true).
Proof.
  intros v r H. unfold JSON.stringify in H.
  destruct (JSON.serialize v) as [[text|]|e] eqn:Hs; inversion H; subst.
  - right. exists text. split; [reflexivity|]. simpl.
    destruct (String.eqb_spec text ""); [|reflexivity].
    now elim (serialize_nonempty v text Hs).
  - now left.
Qed.

Lemma serializeMessage_ends : forall message w o w1,
  serializeMessage message w = (o, w1) -> serialized_as w o w1.
Proof.
  intros message w o w1 H.
  destruct (toSerialize_pure message w) as [[v|e] Hto].
  - rewrite (serializeMessage_run message w v Hto) in H.
    destruct (JSON.stringify v) as [r|e] eqn:Hs.
    + inversion H; subst.
      destruct (stringify_result v r Hs) as [[-> _]|(text & -> & Ht)].
      * now apply as_undefined.
      * now apply as_text.
    + inversion H; subst. now apply as_rejected.
  - rewrite (serializeMessage_throws message w e Hto) in H.
    inversion H; subst. apply as_thrown.
Qed.

Lemma send_or_log_run : forall serialized ws w,
  send_or_log serialized ws w =
  (Ret tt,
   after w
     (ESend ws serialized ::
      match ws_send_throws (trace w) ws serialized with
      | Some e =>
          [ELog [VStr ("Failed to send broadcast to client due to:" ++ newline
                       ++ " " ++ Error_toString e)]]
      | None => []
      end)).
Proof.
  intros serialized ws w. unfold send_or_log, try_catch, ws_send.
  destruct (ws_send_throws (trace w) ws serialized); [|reflexivity].
  unfold logger_error, emit. now rewrite after_after.
Qed.

Lemma for_of_app : forall (A : Type) (xs ys : list A) (body : A -> M unit) w,
  for_of (xs ++ ys) body w =
  match for_of xs body w with
  | (Ret _, w') => for_of ys body w'
  | (Throw e, w') => (Throw e, w')
  end.
Proof.
  intros A xs ys body. induction xs as [|x xs IH]; intros w; [reflexivity|].
  simpl. unfold bind. destruct (body x w) as [[[]|e] w']; [apply IH|reflexivity].
Qed.

(** The loop writes to every socket of the list, in order, whatever the
    writes do; it ends normally and touches nothing but the trace. *)
Lemma fan_out : forall serialized wss w,
  exists es,
    for_of wss (send_or_log serialized) w = (Ret tt, after w es)
    /\ sends es = map (fun ws => (ws, serialized)) wss
    /\ stringified es = []
    /\ broadcasts es = [].
Proof.
  intros serialized wss. induction wss as [|ws wss IH]; intros w.
  - exists []. now rewrite after_nil.
  - simpl. unfold bind. rewrite send_or_log_run.
    match goal with |- context [after w ?es1] => set (first := es1) end.
    destruct (IH (after w first)) as (es & Hrun & Hsends & Hstr & Hbro).
    exists (first ++ es)%list. rewrite Hrun, after_after.
    split; [reflexivity|].
    rewrite sends_app, stringified_app, broadcasts_app, Hsends, Hstr, Hbro.
    unfold first.
    destruct (ws_send_throws (trace w) ws serialized); repeat split; reflexivity.
Qed.

(** C1.  [reportEvent] with no client registered does nothing at all: no
    call of [JSON.stringify], no write.  With a client registered it
    serializes once; if that throws or yields no text, no socket is written
    to; if it yields a text, [JSON.stringify] was called once and every
    registered socket is written that one text, in registration order. *)
Theorem reportEvent_all_or_none : forall event w,
  (clients w = [] -> reportEvent event w = (Ret tt, w))
  /\ (clients w <> [] ->
      forall o w1,
        serializeMessage event w = (o, w1) ->
        match o with
        | Ret (VStr text) =>
            exists v w',
              reportEvent event w = (Ret tt, w')
              /\ clients w' = clients w
              /\ stringified (trace w') = (stringified (trace w) ++ [v])%list
              /\ sends (trace w') =
                 (sends (trace w) ++
                  map (fun ws => (ws, VStr text)) (map snd (clients w)))%list
        | Ret _ =>
            reportEvent event w = (Ret tt, w1)
            /\ sends (trace w1) = sends (trace w)
        | Throw e =>
            reportEvent event w = (Throw e, w1)
            /\ sends (trace w1) = sends (trace w)
        end).
Proof.
  intros event w. unfold reportEvent. rewrite broadCastEvent_unfold. split.
  - now intros ->.
  - intros Hne o w1 Hs. rewrite Hs.
    destruct (clients w) as [|c cs] eqn:Hc; [now elim Hne|].
    destruct (serializeMessage_ends event w o w1 Hs) as [e|v e He|v Hv|v text Hv Ht].
    + auto.
    + simpl truthy. cbv iota. split; [reflexivity|].
      simpl. rewrite sends_app. simpl. apply app_nil_r.
    + simpl truthy. cbv iota. split; [reflexivity|].
      simpl. rewrite sends_app. simpl. apply app_nil_r.
    + rewrite Ht.
      destruct (fan_out (VStr text) (map snd (clients (after w [EStringify v])))
                  (after w [EStringify v])) as (es & Hrun & Hsends & Hstr & _).
      exists v, (after (after w [EStringify v]) es). split; [exact Hrun|].
      simpl. split; [now rewrite Hc|].
      rewrite !stringified_app, !sends_app, Hstr, Hsends. simpl.
      rewrite !app_nil_r, Hc. split; reflexivity.
Qed.

(** C2.  Take any registered client.  Once the event has a text,
    [reportEvent] ends normally with the registry as it was, and its trace
    reads: the writes to the clients registered before this one, the write
    to this one, the log entry for the error if that write threw, and then
    the writes to every client registered after it. *)
Theorem broadcast_isolates_failures : forall event w text w1 before ws rest,
  serializeMessage event w = (Ret (VStr text), w1) ->
  map snd (clients w) = (before ++ ws :: rest)%list ->
  exists es_before es_rest w',
    reportEvent event w = (Ret tt, w')
    /\ clients w' = clients w
    /\ trace w' =
       (trace w1 ++ es_before ++
        ESend ws (VStr text) ::
        match ws_send_throws (trace w1 ++ es_before) ws (VStr text) with
        | Some e =>
            [ELog [VStr ("Failed to send broadcast to client due to:"
                         ++ newline ++ " " ++ Error_toString e)]]
        | None => []
        end ++ es_rest)%list
    /\ sends es_before = map (fun c => (c, VStr text)) before
    /\ sends es_rest = map (fun c => (c, VStr text)) rest.
Proof.
  intros event w text w1 before ws rest Hs Hsplit.
  unfold reportEvent. rewrite broadCastEvent_unfold, Hs.
  destruct (clients w) as [|c cs] eqn:Hc;
    [destruct before; discriminate Hsplit|].
  pose proof (serializeMessage_ends event w _ _ Hs) as Hends.
  inversion Hends as [| | |v text' Hv Ht Ho Hw]; subst.
  rewrite Ht. simpl clients. rewrite Hc, Hsplit, for_of_app.
  set (w1 := after w [EStringify v]).
  destruct (fan_out (VStr text) before w1) as (es1 & Hrun1 & Hsends1 & _).
  rewrite Hrun1. simpl for_of. unfold bind. rewrite send_or_log_run.
  match goal with |- context [after (after w1 es1) ?es] => set (mid := es) end.
  destruct (fan_out (VStr text) rest (after (after w1 es1) mid))
    as (es2 & Hrun2 & Hsends2 & _).
  rewrite Hrun2. exists es1, es2. eexists. split; [reflexivity|].
  split; [simpl; now rewrite Hc|].
  split; [|split; assumption].
  unfold mid. simpl. rewrite <- !app_assoc. reflexivity.
Qed.

(** ** The connection registry *)

Lemma Number_toString_inj : forall a b,
  Number_toString a = Number_toString b -> a = b.
Proof.
  intros a b H. apply DecimalZ.to_int_inj.
  assert (Hn : forall n, Z.to_int n <> Decimal.Pos Decimal.Nil
                         /\ Z.to_int n <> Decimal.Neg Decimal.Nil).
  { intros [|p|p]; simpl; split; try discriminate; intros E; inversion E as [E'];
      now apply DecimalPos.Unsigned.to_uint_nonnil in E'. }
  unfold Number_toString in H.
  assert (Hs : Some (Z.to_int a) = Some (Z.to_int b)).
  { rewrite <- (NilZero.isi (Z.to_int a)), <- (NilZero.isi (Z.to_int b));
      try apply Hn. now rewrite H. }
  now inversion Hs.
Qed.

Lemma client_id_inj : forall a b, client_id a = client_id b -> a = b.
Proof.
  intros a b H. unfold client_id in H. simpl in H.
  apply Number_toString_inj. now inversion H.
Qed.

Lemma parseMessage_frame : forall data w,
  exists message es, parseMessage data w = (Ret message, after w es).
Proof.
  intros data w. destruct (JSON_parse data) as [message|e] eqn:Hp.
  - destruct (Get message "version") as [version|e] eqn:Hg.
    + destruct (strict_eq version (VNum 2)) eqn:Hs.
      * apply strict_eq_VNum in Hs. subst version. exists message, [].
        rewrite after_nil. now apply parseMessage_accept.
      * assert (Hv : Get message "version" <> Ret (VNum PROTOCOL_VERSION)).
        { rewrite Hg. intros H. inversion H; subst.
          now rewrite (proj2 (strict_eq_VNum _ _) eq_refl) in Hs. }
        destruct (parseMessage_wrong_version data w message Hp Hv) as [text ->].
        eauto.
    + assert (Hv : Get message "version" <> Ret (VNum PROTOCOL_VERSION))
        by (rewrite Hg; discriminate).
      destruct (parseMessage_wrong_version data w message Hp Hv) as [text ->].
      eauto.
  - rewrite (parseMessage_undecodable data w e Hp). eauto.
Qed.

(** The handlers of a message and of a report leave [clients] and
    [nextClientId] alone: all they do is add to the trace. *)
Lemma onmessage_frame : forall data w, exists es, snd (onmessage data w) = after w es.
Proof.
  intros data w. unfold onmessage, bind at 1.
  destruct (parseMessage_frame data w) as (message & es & ->).
  destruct (is_nullish message); [now exists es|].
  unfold bind at 1, lift at 1.
  destruct (Get message "type") as [type|e]; [|now exists es].
  destruct (strict_eq type (VStr "command")).
  - unfold try_catch, bind, lift, messageSocket_broadcast, logger_error, emit.
    destruct (Get message "command") as [command|e];
      [|simpl; rewrite after_after; eauto].
    destruct (Get message "params") as [params|e];
      [|simpl; rewrite after_after; eauto].
    destruct (broadcast_throws _ command params); simpl;
      rewrite !after_after; eauto.
  - unfold bind, lift, logger_error, emit.
    destruct (Get message "type"); simpl; rewrite ?after_after; eauto.
Qed.

Lemma reportEvent_frame : forall ev w, exists es, snd (reportEvent ev w) = after w es.
Proof.
  intros ev w. unfold reportEvent. rewrite broadCastEvent_unfold.
  destruct (clients w); [exists []; now rewrite after_nil|].
  destruct (serializeMessage ev w) as [o w1] eqn:Hs.
  destruct (serializeMessage_ends ev w o w1 Hs) as [e|v e He|v Hv|v text Hv Ht].
  - exists []. now rewrite after_nil.
  - simpl. eauto.
  - simpl. eauto.
  - rewrite Ht.
    destruct (fan_out (VStr text) (map snd (clients (after w [EStringify v])))
                (after w [EStringify v])) as (es & -> & _).
    simpl. rewrite after_after. eauto.
Qed.

Lemma Map_set_keys : forall k v m k',
  In k' (map fst (Map_set k v m)) -> k' = k \/ In k' (map fst m).
Proof.
  intros k v m k'. induction m as [|[k0 v0] m IH]; simpl.
  - intros [H|[]]; auto.
  - destruct (String.eqb_spec k k0) as [->|Hne]; simpl.
    + intros [H|H]; auto.
    + intros [H|H]; auto. destruct (IH H); auto.
Qed.

Lemma Map_set_NoDup : forall k v m,
  NoDup (map fst m) -> NoDup (map fst (Map_set k v m)).
Proof.
  intros k v m. induction m as [|[k0 v0] m IH]; simpl; intros Hnd.
  - constructor; [intros [] | constructor].
  - inversion Hnd as [|x l Hnotin Hnd']; subst.
    destruct (String.eqb_spec k k0) as [->|Hne]; simpl.
    + now constructor.
    + constructor; [|auto]. intros Hin.
      destruct (Map_set_keys _ _ _ _ Hin) as [->|H]; [now elim Hne | auto].
Qed.

Lemma Map_delete_keys : forall k m k',
  In k' (map fst (Map_delete k m)) -> In k' (map fst m).
Proof.
  intros k m k'. induction m as [|[k0 v0] m IH]; simpl; [auto|].
  destruct (String.eqb_spec k k0); simpl; [auto|]. intros [H|H]; auto.
Qed.

Lemma Map_delete_NoDup : forall k m,
  NoDup (map fst m) -> NoDup (map fst (Map_delete k m)).
Proof.
  intros k m. induction m as [|[k0 v0] m IH]; simpl; intros Hnd; [constructor|].
  inversion Hnd as [|x l Hnotin Hnd']; subst.
  destruct (String.eqb_spec k k0); simpl; [assumption|].
  constructor; [|auto]. intros Hin. apply Hnotin. eapply Map_delete_keys; eauto.
Qed.

(** One reaction: the id it gives out, the counter and the registry after. *)
Lemma react_id : forall ev w,
  fst (react ev w) =
  match ev with
  | Connection _ => Some (client_id (nextClientId w))
  | _ => None
  end.
Proof. intros [] w; reflexivity. Qed.

Lemma react_counter : forall ev w,
  nextClientId (snd (react ev w)) =
  match ev with
  | Connection _ => increment (nextClientId w)
  | _ => nextClientId w
  end.
Proof.
  intros [ws|id|id|data|ev] w; try reflexivity; simpl.
  - destruct (onmessage_frame data w) as [es ->]. reflexivity.
  - destruct (reportEvent_frame ev w) as [es ->]. reflexivity.
Qed.

Lemma react_keys : forall ev w,
  NoDup (map fst (clients w)) -> NoDup (map fst (clients (snd (react ev w)))).
Proof.
  intros [ws|id|id|data|ev] w Hnd; simpl.
  - now apply Map_set_NoDup.
  - now apply Map_delete_NoDup.
  - now apply Map_delete_NoDup.
  - destruct (onmessage_frame data w) as [es ->]. exact Hnd.
  - destruct (reportEvent_frame ev w) as [es ->]. exact Hnd.
Qed.

Lemma run_cons : forall ev evs w,
  run (ev :: evs) w =
  (match fst (react ev w) with
   | Some id => id :: fst (run evs (snd (react ev w)))
   | None => fst (run evs (snd (react ev w)))
   end,
   snd (run evs (snd (react ev w)))).
Proof.
  intros ev evs w. simpl. destruct (react ev w) as [given w'].
  simpl. now destruct (run evs w').
Qed.

Lemma run_keys : forall evs w,
  NoDup (map fst (clients w)) -> NoDup (map fst (clients (snd (run evs w)))).
Proof.
  induction evs as [|ev evs IH]; intros w Hnd; [exact Hnd|].
  rewrite run_cons. simpl. apply IH. now apply react_keys.
Qed.

(** The ids a run gives out are the successive values of the counter. *)
Lemma run_ids : forall evs w,
  fst (run evs w) = map client_id (counters (nextClientId w) (connections evs)).
Proof.
  induction evs as [|ev evs IH]; intros w; [reflexivity|].
  rewrite run_cons, react_id. simpl fst. rewrite IH, react_counter.
  destruct ev; reflexivity.
Qed.

Lemma counters_exact : forall n c,
  0 <= c -> c + Z.of_nat n <= MAX_EXACT + 1 -> counters c n = upto c n.
Proof.
  induction n as [|n IH]; intros c H0 Hb; [reflexivity|].
  simpl. f_equal. destruct n as [|n]; [reflexivity|].
  unfold increment. destruct (Z.ltb_spec c MAX_EXACT); [|lia].
  apply IH; lia.
Qed.

Lemma upto_bounds : forall n c x, In x (upto c n) -> c <= x < c + Z.of_nat n.
Proof.
  induction n as [|n IH]; intros c x; simpl; [intros []|].
  intros [<-|H]; [lia|]. apply IH in H. lia.
Qed.

Lemma upto_NoDup : forall n c, NoDup (upto c n).
Proof.
  induction n as [|n IH]; intros c; simpl; constructor; [|apply IH].
  intros H. apply upto_bounds in H. lia.
Qed.

Lemma map_client_id_NoDup : forall l, NoDup l -> NoDup (map client_id l).
Proof.
  intros l H. induction H as [|x l Hnotin Hnd IH]; simpl; constructor; [|exact IH].
  rewrite in_map_iff. intros (y & Hy & Hin). apply client_id_inj in Hy.
  now subst y.
Qed.

(** C9 (as amended).  After any sequence of connections, closes, errors,
    messages and reports, no two entries of the registry have the same id.
    As long as the process has accepted at most [2^53 + 1] connections, the
    ids given out are [client#0], [client#1], [client#2], ... in this order,
    so none is given twice. *)
Theorem client_ids_unique_while_counter_exact : forall evs,
  NoDup (map fst (clients (snd (run evs attached))))
  /\ (Z.of_nat (connections evs) <= MAX_EXACT + 1 ->
      fst (run evs attached) = map client_id (upto 0 (connections evs))
      /\ NoDup (fst (run evs attached))).
Proof.
  intros evs. split.
  - apply run_keys. constructor.
  - intros Hb. rewrite run_ids. simpl nextClientId.
    rewrite counters_exact by lia.
    split; [reflexivity|]. apply map_client_id_NoDup, upto_NoDup.
Qed.

(** Beyond that the counter no longer moves. *)
Lemma counters_app : forall n m c,
  counters c (n + m) = (counters c n ++ counters (Nat.iter n increment c) m)%list.
Proof.
  induction n as [|n IH]; intros m c; [reflexivity|].
  simpl counters. rewrite IH. simpl. do 3 f_equal.
  clear. induction n as [|n IH]; [reflexivity|]. simpl. now rewrite IH.
Qed.

Lemma iter_increment : forall n c,
  0 <= c <= MAX_EXACT ->
  Nat.iter n increment c = Z.min (c + Z.of_nat n) MAX_EXACT.
Proof.
  induction n as [|n IH]; intros c Hc.
  - simpl. lia.
  - rewrite Nat.iter_succ, IH by exact Hc. unfold increment.
    destruct (Z.ltb_spec (Z.min (c + Z.of_nat n) MAX_EXACT) MAX_EXACT); lia.
Qed.

Lemma connections_repeat : forall ws n, connections (repeat (Connection ws) n) = n.
Proof. intros ws n. induction n as [|n IH]; simpl; [|rewrite IH]; reflexivity. Qed.

(** Connection number [2^53 + 1] and the one after it get the same id. *)
Lemma saturated_id_given_twice : forall ws m,
  Z.of_nat m = MAX_EXACT ->
  ~ NoDup (fst (run (repeat (Connection ws) (m + 2)) attached)).
Proof.
  intros ws m Hm. rewrite run_ids, connections_repeat. simpl nextClientId.
  rewrite counters_app, iter_increment by (unfold MAX_EXACT; lia).
  replace (Z.min (0 + Z.of_nat m) MAX_EXACT) with MAX_EXACT by lia.
  rewrite map_app. intros Hnd. apply NoDup_app_remove_l in Hnd.
  change (counters MAX_EXACT 2) with [MAX_EXACT; increment MAX_EXACT] in Hnd.
  change (increment MAX_EXACT) with MAX_EXACT in Hnd.
  inversion Hnd as [|x l Hnotin _]; subst. apply Hnotin. now left.
Qed.

(** ** Further properties *)

Lemma is_client_log_false : forall message w,
  Get message "type" <> Ret (VStr "client_log") ->
  is_client_log message w = (Ret false, w).
Proof.
  intros message w H. unfold is_client_log.
  destruct (truthy message) eqn:Ht; [|reflexivity].
  destruct (truthy_Get message "type" Ht) as [type He].
  unfold bind, lift, ret. rewrite He.
  destruct (strict_eq type (VStr "client_log")) eqn:Hs; [|reflexivity].
  apply strict_eq_VStr in Hs. subst type. now elim H.
Qed.

(** X1.  An event that has neither an [Error] in [error] nor the type
    [client_log] is handed to [JSON.stringify] as it is. *)
Theorem serializeMessage_passes_other_events : forall event w,
  (forall e, Get event "error" <> Ret (VError e)) ->
  Get event "type" <> Ret (VStr "client_log") ->
  toSerialize event w = (Ret event, w)
  /\ serializeMessage event w =
     match JSON.stringify event with
     | Ret text => (Ret text, after w [EStringify event])
     | Throw e =>
         (Ret VNull,
          after w [EStringify event;
                   ELog [VStr ("Failed to serialize: " ++ Error_toString e)]])
     end.
Proof.
  intros event w He Ht.
  assert (H : toSerialize event w = (Ret event, w)).
  { unfold toSerialize, bind.
    now rewrite (has_Error_false event w He), (is_client_log_false event w Ht). }
  split; [exact H | now apply serializeMessage_run].
Qed.

Lemma Map_delete_absent : forall k m,
  ~ In k (map fst m) -> Map_delete k m = m.
Proof.
  intros k m. induction m as [|[k0 v0] m IH]; simpl; intros H; [reflexivity|].
  destruct (String.eqb_spec k k0) as [->|Hne]; [elim H; now left|].
  f_equal. apply IH. intros Hin. apply H. now right.
Qed.

Lemma Map_delete_removes : forall k m,
  NoDup (map fst m) -> ~ In k (map fst (Map_delete k m)).
Proof.
  intros k m. induction m as [|[k0 v0] m IH]; simpl; intros Hnd; [auto|].
  inversion Hnd as [|x l Hnotin Hnd']; subst.
  destruct (String.eqb_spec k k0) as [->|Hne]; [exact Hnotin|].
  simpl. intros [H|H]; [now elim Hne | now apply (IH Hnd')].
Qed.

(** X2.  In every state the server can reach, a second close or error
    signal for the same connection changes nothing and does not throw. *)
Theorem removal_idempotent : forall evs clientId,
  onclose clientId (snd (run evs attached)) =
  (Ret tt, snd (onclose clientId (snd (run evs attached))))
  /\ onclose clientId (snd (onclose clientId (snd (run evs attached)))) =
     (Ret tt, snd (onclose clientId (snd (run evs attached))))
  /\ onerror clientId (snd (onclose clientId (snd (run evs attached)))) =
     (Ret tt, snd (onclose clientId (snd (run evs attached)))).
Proof.
  intros evs clientId.
  pose proof (run_keys evs attached (NoDup_nil _)) as Hnd.
  set (w := snd (run evs attached)) in *.
  split; [reflexivity|].
  assert (H : Map_delete clientId (Map_delete clientId (clients w)) =
              Map_delete clientId (clients w))
    by (apply Map_delete_absent, Map_delete_removes, Hnd).
  unfold onerror, onclose, clients_delete. simpl. rewrite H. split; reflexivity.
Qed.

(** The scenario of the specification: two clients connect and
    [{type: 'foo'}] is reported; both sockets are written the text
    [{"type":"foo"}], whether or not a write throws. *)
Theorem both_clients_receive_foo : forall a b,
  sends (trace (snd (run [Connection a; Connection b; Report Sample.foo]
                       attached))) =
  [(a, VStr Sample.foo_text); (b, VStr Sample.foo_text)].
Proof.
  intros a b. cbv.
  repeat match goal with
         | |- context [ws_send_throws ?t ?ws ?d] =>
             destruct (ws_send_throws t ws d)
         end; reflexivity.
Qed.

(** ** Inbound messages, whatever they are *)

Lemma Get_of_not_nullish : forall v k,
  is_nullish v = false -> exists x, Get v k = Ret x.
Proof. intros v k H. destruct v; try discriminate H; simpl; eauto. Qed.

Lemma parseMessage_result : forall data w,
  (exists message,
     JSON_parse data = Ret message
     /\ Get message "version" = Ret (VNum 2)
     /\ parseMessage data w = (Ret message, w))
  \/ (exists text,
        parseMessage data w = (Ret VUndefined, after w [ELog [VStr text]])).
Proof.
  intros data w. destruct (JSON_parse data) as [message|e] eqn:Hp.
  - destruct (Get message "version") as [version|e] eqn:Hg.
    + destruct (strict_eq version (VNum 2)) eqn:Hs.
      * apply strict_eq_VNum in Hs. subst version. left. exists message.
        repeat split; auto. now apply parseMessage_accept.
      * right. apply (parseMessage_wrong_version data w message Hp).
        rewrite Hg. intros H. inversion H; subst.
        now rewrite (proj2 (strict_eq_VNum _ _) eq_refl) in Hs.
    + right. apply (parseMessage_wrong_version data w message Hp).
      rewrite Hg. discriminate.
  - right. rewrite (parseMessage_undecodable data w e Hp). eauto.
Qed.

Lemma onmessage_cases : forall data w,
  (exists message type command params,
     JSON_parse data = Ret message
     /\ Get message "version" = Ret (VNum 2)
     /\ Get message "type" = Ret type
     /\ Get message "command" = Ret command
     /\ Get message "params" = Ret params
     /\ onmessage data w =
        (Ret tt,
         after w
           (if strict_eq type (VStr "command")
            then
              EBroadcast command params ::
              match broadcast_throws (trace w) command params with
              | Some e =>
                  [ELog [VStr "Failed to forward message to clients: ";
                         VError e]]
              | None => []
              end
            else [ELog [VStr "Unknown message type: "; type]])))
  \/ (exists text, onmessage data w = (Ret tt, after w [ELog [VStr text]])).
Proof.
  intros data w.
  destruct (parseMessage_result data w) as [(message & Hp & Hv & Hm)|(text & Hm)].
  - left.
    destruct (Get_total_on_readable _ _ _ "type" Hv) as [type Ht].
    destruct (Get_total_on_readable _ _ _ "command" Hv) as [command Hc].
    destruct (Get_total_on_readable _ _ _ "params" Hv) as [params Hq].
    exists message, type, command, params. repeat (split; [assumption|]).
    unfold onmessage, bind at 1.
    rewrite Hm, (Get_Ret_not_nullish _ _ _ Hv).
    unfold bind at 1, lift at 1. rewrite Ht.
    destruct (strict_eq type (VStr "command")); [|reflexivity].
    unfold try_catch, bind, lift, messageSocket_broadcast, logger_error, emit.
    rewrite Hc, Hq.
    destruct (broadcast_throws (trace w) command params); [|reflexivity].
    now rewrite after_after.
  - right. exists text. unfold onmessage, bind. now rewrite Hm.
Qed.

Lemma onmessage_quiet : forall data w,
  exists es,
    onmessage data w = (Ret tt, after w es)
    /\ sends es = []
    /\ stringified es = [].
Proof.
  intros data w.
  destruct (onmessage_cases data w)
    as [(message & type & command & params & _ & _ & _ & _ & _ & ->)|(text & ->)].
  - eexists. split; [reflexivity|].
    destruct (strict_eq type (VStr "command")); [|split; reflexivity].
    destruct (broadcast_throws (trace w) command params); split; reflexivity.
  - eexists. repeat split.
Qed.

(** X3.  [onmessage] never throws, whatever the text and whatever
    [messageSocket.broadcast] does: it returns normally, leaves [clients] and
    [nextClientId] as they were, writes to no client socket and calls
    [JSON.stringify] never. *)
Theorem onmessage_never_throws : forall data w,
  exists es,
    onmessage data w = (Ret tt, after w es)
    /\ sends es = []
    /\ stringified es = [].
Proof. exact onmessage_quiet. Qed.

(** X4.  Whatever text arrives, [onmessage] calls
    [messageSocket.broadcast] at most once, and only for a text that decodes
    to a value with [version] 2 and [type] ['command']; the call then carries
    that value's [command] and [params]. *)
Theorem onmessage_relays_only_accepted_commands : forall data w,
  broadcasts (trace (snd (onmessage data w))) = broadcasts (trace w)
  \/ exists message command params,
       JSON_parse data = Ret message
       /\ Get message "version" = Ret (VNum 2)
       /\ Get message "type" = Ret (VStr "command")
       /\ Get message "command" = Ret command
       /\ Get message "params" = Ret params
       /\ broadcasts (trace (snd (onmessage data w))) =
          (broadcasts (trace w) ++ [(command, params)])%list.
Proof.
  intros data w.
  destruct (onmessage_cases data w)
    as [(message & type & command & params & Hp & Hv & Ht & Hc & Hq & ->)
       |(text & ->)].
  - destruct (strict_eq type (VStr "command")) eqn:Hs.
    + apply strict_eq_VStr in Hs. subst type. right.
      exists message, command, params. repeat (split; [assumption|]).
      simpl. rewrite broadcasts_app. f_equal. simpl.
      now destruct (broadcast_throws (trace w) command params).
    + left. simpl. rewrite broadcasts_app. simpl. apply app_nil_r.
  - left. simpl. rewrite broadcasts_app. simpl. apply app_nil_r.
Qed.

(** X5.  [parseMessage] never throws: it accepts without logging, or it
    yields [undefined] after exactly one log entry.  A text that
    [JSON.parse] decodes to [null] is among the rejected ones, and what is
    logged for it is the message for a text that is no JSON. *)
Theorem parseMessage_accepts_or_logs_once : forall data w,
  ((exists message,
      parseMessage data w = (Ret message, w) /\ message <> VUndefined)
   \/ (exists text,
         parseMessage data w = (Ret VUndefined, after w [ELog [VStr text]])))
  /\ (JSON_parse data = Ret VNull ->
      parseMessage data w =
      (Ret VUndefined,
       after w
         [ELog [VStr ("Failed to parse the message as JSON:" ++ newline
                      ++ data)]])).
Proof.
  intros data w. split.
  - destruct (parseMessage_result data w) as [(message & _ & Hv & H)|H].
    + left. exists message. split; [exact H|]. intros ->. discriminate Hv.
    + now right.
  - intros Hp. unfold parseMessage. run_M. rewrite Hp. reflexivity.
Qed.

(** ** Events, whatever they are *)

Lemma toSerialize_other : forall message w,
  (forall e, Get message "error" <> Ret (VError e)) ->
  Get message "type" <> Ret (VStr "client_log") ->
  toSerialize message w = (Ret message, w).
Proof.
  intros message w He Ht. unfold toSerialize, bind.
  now rewrite (has_Error_false message w He), (is_client_log_false message w Ht).
Qed.

(** The three shapes [serializeMessage] tells apart. *)
Lemma event_shapes : forall message,
  (exists e, Get message "error" = Ret (VError e))
  \/ ((forall e, Get message "error" <> Ret (VError e))
      /\ Get message "type" = Ret (VStr "client_log")
      /\ exists data, Get message "data" = Ret data)
  \/ ((forall e, Get message "error" <> Ret (VError e))
      /\ Get message "type" <> Ret (VStr "client_log")).
Proof.
  intros message.
  assert (Herr : (exists e, Get message "error" = Ret (VError e))
                 \/ (forall e, Get message "error" <> Ret (VError e))).
  { destruct (Get message "error") as [error|thrown]; [|right; discriminate].
    destruct error; try (right; discriminate). left; eauto. }
  destruct Herr as [Herr|Hno]; [now left|right].
  assert (Hty : Get message "type" = Ret (VStr "client_log")
                \/ Get message "type" <> Ret (VStr "client_log")).
  { destruct (Get message "type") as [type|thrown]; [|right; discriminate].
    destruct (strict_eq type (VStr "client_log")) eqn:Hs.
    - left. apply strict_eq_VStr in Hs. now subst.
    - right. intros H. inversion H; subst.
      now rewrite (proj2 (strict_eq_VStr _ _) eq_refl) in Hs. }
  destruct Hty as [Hty|Hty]; [left|right; auto].
  split; [exact Hno|]. split; [exact Hty|].
  apply (Get_total_on_readable _ _ _ "data" Hty).
Qed.

Lemma serializeMessage_thrown : forall message w e w1,
  serializeMessage message w = (Throw e, w1) ->
  toSerialize message w = (Throw e, w).
Proof.
  intros message w e w1 H.
  destruct (toSerialize_pure message w) as [[v|e'] Hto].
  - rewrite (serializeMessage_run message w v Hto) in H.
    destruct (JSON.stringify v); discriminate H.
  - rewrite (serializeMessage_throws message w e' Hto) in H.
    inversion H; subst. exact Hto.
Qed.

(** X6.  [reportEvent] throws in one situation only: a client is
    registered and the event has the type [client_log], no [Error] in
    [error], and a [data] that is not an array.  In every other situation it
    returns normally. *)
Theorem reportEvent_throws_exactly : forall event w,
  (exists thrown, fst (reportEvent event w) = Throw thrown) <->
  clients w <> []
  /\ (forall e, Get event "error" <> Ret (VError e))
  /\ Get event "type" = Ret (VStr "client_log")
  /\ exists data, Get event "data" = Ret data /\ forall items, data <> VArr items.
Proof.
  intros event w. unfold reportEvent. rewrite broadCastEvent_unfold. split.
  - intros [thrown H].
    destruct (clients w) as [|c cs] eqn:Hc; [discriminate H|].
    split; [discriminate|].
    destruct (serializeMessage event w) as [o w1] eqn:Hs.
    destruct (serializeMessage_ends event w o w1 Hs) as [e|v e He|v Hv|v text Hv Ht].
    + apply serializeMessage_thrown in Hs.
      destruct (event_shapes event) as [[e' He]|[(He & Hty & data & Hd)|(He & Hty)]].
      * rewrite (toSerialize_error event e' w He) in Hs. discriminate Hs.
      * split; [exact He|]. split; [exact Hty|]. exists data.
        split; [exact Hd|]. intros items ->.
        rewrite (toSerialize_client_log event _ w He Hty Hd) in Hs.
        discriminate Hs.
      * rewrite (toSerialize_other event w He Hty) in Hs. discriminate Hs.
    + discriminate H.
    + discriminate H.
    + rewrite Ht in H.
      destruct (fan_out (VStr text) (map snd (clients (after w [EStringify v])))
                  (after w [EStringify v])) as (es & Hrun & _).
      rewrite Hrun in H. discriminate H.
  - intros (Hne & He & Hty & data & Hd & Hna).
    pose proof (toSerialize_client_log event data w He Hty Hd) as Hto.
    assert (Hc : exists thrown,
               call_map data
                 (fun item =>
                    if typeof_string item then item
                    else VStr (prettyFormat item item_options)) = Throw thrown).
    { destruct data as [| |b|n|n|s|its|props|e']; simpl; eauto.
      now elim (Hna its). }
    destruct Hc as [thrown Hc]. rewrite Hc in Hto. exists thrown.
    destruct (clients w); [now elim Hne|].
    now rewrite (serializeMessage_throws event w thrown Hto).
Qed.

Lemma stringify_undefined : forall v,
  JSON.stringify v = Ret VUndefined -> v = VUndefined.
Proof.
  intros v H. unfold JSON.stringify in H.
  destruct (JSON.serialize v) as [[text|]|e] eqn:Hs; try discriminate H.
  destruct v; simpl in Hs; try discriminate Hs; [reflexivity| |].
  - destruct (JSON.elements JSON.serialize items); discriminate Hs.
  - destruct (JSON.members JSON.serialize props); discriminate Hs.
Qed.

Lemma after_inj : forall w es es', after w es = after w es' -> es = es'.
Proof.
  intros w es es' H. unfold after in H. inversion H as [Ht].
  now apply app_inv_head in Ht.
Qed.

(** X7.  The only event [serializeMessage] drops without a trace in the
    log is [undefined]: its result is [undefined] exactly for that event, and
    it is [null] exactly when the failure of [JSON.stringify] was logged. *)
Theorem serializeMessage_silent_only_for_undefined : forall event w,
  (fst (serializeMessage event w) = Ret VUndefined <-> event = VUndefined)
  /\ (fst (serializeMessage event w) = Ret VNull <->
      exists v thrown,
        snd (serializeMessage event w) =
        after w [EStringify v;
                 ELog [VStr ("Failed to serialize: " ++ Error_toString thrown)]]).
Proof.
  intros event w. split; split.
  - intros H. destruct (toSerialize_pure event w) as [[v|e] Hto].
    + rewrite (serializeMessage_run event w v Hto) in H.
      destruct (JSON.stringify v) as [r|e] eqn:Hs; [|discriminate H].
      simpl in H. inversion H; subst r. apply stringify_undefined in Hs.
      subst v.
      destruct (event_shapes event) as [[e' He]|[(He & Hty & data & Hd)|(He & Hty)]].
      * rewrite (toSerialize_error event e' w He) in Hto. discriminate Hto.
      * rewrite (toSerialize_client_log event data w He Hty Hd) in Hto.
        destruct (call_map data _); discriminate Hto.
      * rewrite (toSerialize_other event w He Hty) in Hto. now inversion Hto.
    + rewrite (serializeMessage_throws event w e Hto) in H. discriminate H.
  - intros ->. reflexivity.
  - intros H. destruct (serializeMessage event w) as [o w1] eqn:Hs.
    simpl in H. subst o.
    pose proof (serializeMessage_ends event w _ _ Hs) as Hends.
    inversion Hends; subst. simpl. eauto.
  - intros (v & thrown & H). destruct (serializeMessage event w) as [o w1] eqn:Hs.
    simpl in H |- *.
    destruct (serializeMessage_ends event w o w1 Hs) as [e|v' e He|v' Hv|v' text Hv Ht].
    + rewrite <- (after_nil w) in H at 1. apply after_inj in H. discriminate H.
    + reflexivity.
    + apply after_inj in H. discriminate H.
    + apply after_inj in H. discriminate H.
Qed.

Lemma lookup_define_other : forall k k' x props,
  k' <> k -> lookup k' (define k x props) = lookup k' props.
Proof.
  intros k k' x props Hne. induction props as [|[k0 v] props IH]; simpl.
  - apply String.eqb_neq in Hne. now rewrite Hne.
  - destruct (k =? k0)%string eqn:E; simpl.
    + apply String.eqb_eq in E. subst k0.
      apply String.eqb_neq in Hne. now rewrite Hne.
    + now rewrite IH.
Qed.

Lemma define_keys : forall k x props v,
  lookup k props = Some v -> map fst (define k x props) = map fst props.
Proof.
  intros k x props v. induction props as [|[k0 v0] props IH]; simpl;
    [discriminate|].
  destruct (String.eqb_spec k k0) as [->|Hne]; simpl; [reflexivity|].
  intros H. now rewrite IH.
Qed.

Lemma Get_own : forall v k x,
  Get v k = Ret x -> x <> VUndefined ->
  exists props, v = VObj props /\ lookup k props = Some x.
Proof.
  intros v k x H Hx. destruct v; simpl in H; try discriminate H;
    try (inversion H; subst; now elim Hx).
  exists props. split; [reflexivity|].
  destruct (lookup k props); inversion H; subst; [reflexivity | now elim Hx].
Qed.

Lemma serializeMessage_stringified : forall message w v,
  toSerialize message w = (Ret v, w) ->
  stringified (trace (snd (serializeMessage message w))) =
  (stringified (trace w) ++ [v])%list.
Proof.
  intros message w v H. rewrite (serializeMessage_run message w v H).
  destruct (JSON.stringify v); simpl; now rewrite stringified_app.
Qed.

(** X8.  When the event carries an [Error], the object handed to
    [JSON.stringify] has the event's fields in the event's order, and every
    field but [error] holds the value it held in the event.  So the [data]
    of a [client_log] event that carries an [Error] is not rendered. *)
Theorem serializeMessage_error_keeps_other_fields : forall event e w,
  Get event "error" = Ret (VError e) ->
  exists props rewritten,
    event = VObj props
    /\ stringified (trace (snd (serializeMessage event w))) =
       (stringified (trace w) ++ [VObj rewritten])%list
    /\ map fst rewritten = map fst props
    /\ forall k, k <> "error" -> Get (VObj rewritten) k = Get event k.
Proof.
  intros event e w H.
  destruct (Get_own event "error" _ H) as (props & -> & Hl); [discriminate|].
  exists props. eexists. split; [reflexivity|].
  split; [apply serializeMessage_stringified, (toSerialize_error _ e w H)|].
  simpl own_enumerable. split; [now apply define_keys with (v := VError e)|].
  intros k Hk. simpl. now rewrite lookup_define_other.
Qed.

(** X9.  For a [client_log] event with an array in [data] and no [Error],
    the object handed to [JSON.stringify] has the event's fields in the
    event's order, and every field but [data] holds the value it held in the
    event. *)
Theorem serializeMessage_client_log_keeps_other_fields : forall event items w,
  (forall e, Get event "error" <> Ret (VError e)) ->
  Get event "type" = Ret (VStr "client_log") ->
  Get event "data" = Ret (VArr items) ->
  exists props rewritten,
    event = VObj props
    /\ stringified (trace (snd (serializeMessage event w))) =
       (stringified (trace w) ++ [VObj rewritten])%list
    /\ map fst rewritten = map fst props
    /\ forall k, k <> "data" -> Get (VObj rewritten) k = Get event k.
Proof.
  intros event items w He Ht Hd.
  destruct (Get_own event "data" _ Hd) as (props & -> & Hl); [discriminate|].
  exists props. eexists. split; [reflexivity|].
  split; [apply serializeMessage_stringified;
          exact (toSerialize_client_log _ _ w He Ht Hd)|].
  simpl own_enumerable. split; [now apply define_keys with (v := VArr items)|].
  intros k Hk. simpl. now rewrite lookup_define_other.
Qed.

(** ** Who is written to *)

Lemma report_text : forall event w text,
  fst (serializeMessage event w) = Ret (VStr text) ->
  exists es,
    reportEvent event w = (Ret tt, after w es)
    /\ sends es = map (fun ws => (ws, VStr text)) (map snd (clients w)).
Proof.
  intros event w text H. unfold reportEvent. rewrite broadCastEvent_unfold.
  destruct (clients w) as [|c cs] eqn:Hc.
  - exists []. now rewrite after_nil.
  - destruct (serializeMessage event w) as [o w1] eqn:Hs. simpl in H. subst o.
    pose proof (serializeMessage_ends event w _ _ Hs) as Hends.
    inversion Hends as [| | |v text' Hv Ht Ho Hw]; subst.
    rewrite Ht.
    destruct (fan_out (VStr text) (map snd (clients (after w [EStringify v])))
                (after w [EStringify v])) as (es & Hrun & Hsends & _).
    exists ([EStringify v] ++ es)%list. rewrite Hrun, after_after.
    split; [reflexivity|]. rewrite sends_app, Hsends. simpl. now rewrite Hc.
Qed.

Lemma report_writes : forall event w,
  exists es,
    snd (reportEvent event w) = after w es
    /\ forall ws d,
         In (ws, d) (sends es) ->
         In ws (map snd (clients w)) /\ exists text, d = VStr text.
Proof.
  intros event w.
  destruct (serializeMessage event w) as [o w1] eqn:Hs.
  assert (Hquiet : forall es, sends es = [] ->
            forall ws d, In (ws, d) (sends es) ->
            In ws (map snd (clients w)) /\ exists text, d = VStr text)
    by (intros es -> ws d []).
  destruct (serializeMessage_ends event w o w1 Hs) as [e|v e He|v Hv|v text Hv Ht].
  - exists []. unfold reportEvent. rewrite broadCastEvent_unfold, Hs.
    split; [|now apply Hquiet]. rewrite after_nil. now destruct (clients w).
  - unfold reportEvent. rewrite broadCastEvent_unfold, Hs. simpl truthy. cbv iota.
    destruct (clients w); [exists []; rewrite after_nil|eexists];
      (split; [reflexivity|now apply Hquiet]).
  - unfold reportEvent. rewrite broadCastEvent_unfold, Hs. simpl truthy. cbv iota.
    destruct (clients w); [exists []; rewrite after_nil|eexists];
      (split; [reflexivity|now apply Hquiet]).
  - destruct (report_text event w text) as (es & Hrun & Hsends);
      [now rewrite Hs|].
    exists es. rewrite Hrun. split; [reflexivity|].
    intros ws d Hin. rewrite Hsends in Hin. apply in_map_iff in Hin.
    destruct Hin as (ws' & Heq & Hin). inversion Heq; subst. eauto.
Qed.

(** X10.  Whatever the event and however serialization ends,
    [reportEvent] leaves [clients] and [nextClientId] as they were, and every
    write it makes goes to a socket of the registry and carries a string. *)
Theorem reportEvent_writes_to_registered_only : forall event w,
  exists es,
    snd (reportEvent event w) = after w es
    /\ forall ws d,
         In (ws, d) (sends es) ->
         In ws (map snd (clients w)) /\ exists text, d = VStr text.
Proof. exact report_writes. Qed.

Lemma Map_set_values : forall k v m, In v (map snd (Map_set k v m)).
Proof.
  intros k v m. induction m as [|[k0 v0] m IH]; simpl; [now left|].
  destruct (k =? k0)%string; simpl; [now left | now right].
Qed.

Lemma Map_set_values_from : forall k v m v',
  In v' (map snd (Map_set k v m)) -> v' = v \/ In v' (map snd m).
Proof.
  intros k v m v'. induction m as [|[k0 v0] m IH]; simpl.
  - intros [H|[]]; auto.
  - destruct (k =? k0)%string; simpl; intros [H|H]; auto.
    destruct (IH H); auto.
Qed.

Lemma Map_delete_values : forall k m v,
  In v (map snd (Map_delete k m)) -> In v (map snd m).
Proof.
  intros k m v. induction m as [|[k0 v0] m IH]; simpl; [auto|].
  destruct (k =? k0)%string; simpl; [auto|]. intros [H|H]; auto.
Qed.

(** X11.  A client is written every event that gets a text from the
    moment its connection is handled: the report that follows the
    connection writes that text to its socket. *)
Theorem connected_client_is_sent_next_event : forall clientWs w event text,
  fst (serializeMessage event (snd (connection clientWs w))) = Ret (VStr text) ->
  exists es,
    reportEvent event (snd (connection clientWs w)) =
    (Ret tt, after (snd (connection clientWs w)) es)
    /\ In (clientWs, VStr text) (sends es).
Proof.
  intros clientWs w event text H.
  destruct (report_text event _ text H) as (es & Hrun & Hsends).
  exists es. split; [exact Hrun|]. rewrite Hsends.
  apply in_map_iff. exists clientWs. split; [reflexivity|].
  simpl. apply Map_set_values.
Qed.

(** X12.  Failed writes and failed serializations never shrink the
    audience: after any report, whatever happened in it, the next event that
    gets a text is written to every client that was registered before. *)
Theorem failures_keep_the_audience : forall event1 event2 w text,
  fst (serializeMessage event2 (snd (reportEvent event1 w))) = Ret (VStr text) ->
  exists es,
    reportEvent event2 (snd (reportEvent event1 w)) =
    (Ret tt, after (snd (reportEvent event1 w)) es)
    /\ sends es = map (fun ws => (ws, VStr text)) (map snd (clients w)).
Proof.
  intros event1 event2 w text H.
  destruct (report_text event2 _ text H) as (es & Hrun & Hsends).
  exists es. split; [exact Hrun|]. rewrite Hsends.
  destruct (reportEvent_frame event1 w) as [es1 ->]. reflexivity.
Qed.

(** X13.  In a run that starts when the server is attached, a socket is
    written to only if it has connected in that run. *)
Theorem run_writes_only_to_connected : forall evs ws d,
  In (ws, d) (sends (trace (snd (run evs attached)))) ->
  In (Connection ws) evs.
Proof.
  assert (H : forall evs w ws d,
            In (ws, d) (sends (trace (snd (run evs w)))) ->
            In (ws, d) (sends (trace w))
            \/ In ws (map snd (clients w))
            \/ In (Connection ws) evs).
  { induction evs as [|ev evs IH]; intros w ws d Hin; [now left|].
    rewrite run_cons in Hin. simpl snd in Hin.
    destruct (IH _ _ _ Hin) as [Ht|[Hc|Hev]]; [| |right; right; now right].
    - destruct ev as [ws0|id|id|data|event]; simpl in Ht; auto.
      + destruct (onmessage_quiet data w) as (es & Hrun & Hs & _).
        rewrite Hrun in Ht. simpl in Ht.
        rewrite sends_app, Hs, app_nil_r in Ht. now left.
      + destruct (report_writes event w)
          as (es & Hrun & Hreg).
        rewrite Hrun in Ht. simpl in Ht. rewrite sends_app in Ht.
        apply in_app_or in Ht. destruct Ht as [Ht|Ht]; [now left|].
        right; left. now apply (Hreg ws d).
    - destruct ev as [ws0|id|id|data|event]; simpl in Hc.
      + destruct (Map_set_values_from _ _ _ _ Hc) as [->|Hc'];
          [right; right; now left | right; now left].
      + right; left. eapply Map_delete_values; eauto.
      + right; left. eapply Map_delete_values; eauto.
      + destruct (onmessage_frame data w) as [es Hrun]. rewrite Hrun in Hc.
        right; now left.
      + destruct (reportEvent_frame event w) as [es Hrun]. rewrite Hrun in Hc.
        right; now left. }
  intros evs ws d Hin. destruct (H evs attached ws d Hin) as [[]|[[]|Hev]].
  exact Hev.
Qed.

(** ** The registry as a function of the signals *)

Lemma Map_set_fresh : forall k v m,
  ~ In k (map fst m) -> Map_set k v m = (m ++ [(k, v)])%list.
Proof.
  intros k v m. induction m as [|[k0 v0] m IH]; simpl; intros H; [reflexivity|].
  destruct (String.eqb_spec k k0) as [->|Hne]; [elim H; now left|].
  f_equal. apply IH. intros Hin. apply H. now right.
Qed.

Lemma filter_absent : forall k (m : list (string * WebSocket)),
  ~ In k (map fst m) ->
  filter (fun kv => negb (k =? fst kv)%string) m = m.
Proof.
  intros k m. induction m as [|[k0 v0] m IH]; simpl; intros H; [reflexivity|].
  destruct (String.eqb_spec k k0) as [->|Hne]; [elim H; now left|].
  simpl. f_equal. apply IH. intros Hin. apply H. now right.
Qed.

Lemma Map_delete_filter : forall k m,
  NoDup (map fst m) ->
  Map_delete k m = filter (fun kv => negb (k =? fst kv)%string) m.
Proof.
  intros k m. induction m as [|[k0 v0] m IH]; simpl; intros Hnd; [reflexivity|].
  inversion Hnd as [|x l Hnotin Hnd']; subst.
  destruct (String.eqb_spec k k0) as [->|Hne]; simpl.
  - symmetry. now apply filter_absent.
  - f_equal. now apply IH.
Qed.

Lemma filter_twice : forall (A : Type) (f g : A -> bool) (l : list A),
  filter f (filter g l) = filter (fun x => g x && f x) l.
Proof.
  intros A f g l. induction l as [|x l IH]; simpl; [reflexivity|].
  destruct (g x); simpl; [destruct (f x)|]; now rewrite IH.
Qed.

Lemma react_clients : forall ev w,
  clients (snd (react ev w)) =
  match ev with
  | Connection clientWs =>
      Map_set (client_id (nextClientId w)) clientWs (clients w)
  | Close id | Failure id => Map_delete id (clients w)
  | _ => clients w
  end.
Proof.
  intros [ws|id|id|data|ev] w; try reflexivity; simpl.
  - destruct (onmessage_frame data w) as [es ->]. reflexivity.
  - destruct (reportEvent_frame ev w) as [es ->]. reflexivity.
Qed.

Lemma run_registry : forall evs w,
  NoDup (map fst (clients w)) ->
  0 <= nextClientId w ->
  (forall k, In k (map fst (clients w)) ->
             exists j, 0 <= j < nextClientId w /\ k = client_id j) ->
  nextClientId w + Z.of_nat (connections evs) <= MAX_EXACT ->
  clients (snd (run evs w)) =
  (filter (fun kv => negb (closed_in (fst kv) evs)) (clients w)
   ++ still_open (nextClientId w) evs)%list
  /\ nextClientId (snd (run evs w)) = nextClientId w + Z.of_nat (connections evs).
Proof.
  induction evs as [|ev evs IH]; intros w Hnd H0 Hkeys Hb.
  - simpl. rewrite app_nil_r. split; [|lia].
    symmetry. apply forallb_filter_id. now apply forallb_forall.
  - rewrite run_cons. simpl snd.
    pose proof (react_clients ev w) as Hc.
    pose proof (react_counter ev w) as Hn.
    pose proof (react_keys ev w Hnd) as Hnd1.
    set (w1 := snd (react ev w)) in *.
    assert (Hkeep : forall m : list (string * WebSocket),
              (forall kv, In kv m -> In kv (clients w)) ->
              forall k, In k (map fst m) ->
              exists j, 0 <= j < nextClientId w /\ k = client_id j).
    { intros m Hsub k Hin. apply Hkeys. apply in_map_iff in Hin.
      destruct Hin as (kv & <- & Hin). apply in_map. auto. }
    destruct ev as [ws|id|id|data|event]; simpl connections in Hb |- *.
    + assert (Hlt : nextClientId w < MAX_EXACT) by lia.
      assert (Hinc : increment (nextClientId w) = nextClientId w + 1).
      { unfold increment. destruct (Z.ltb_spec (nextClientId w) MAX_EXACT); lia. }
      rewrite Hinc in Hn.
      assert (Hfresh : ~ In (client_id (nextClientId w)) (map fst (clients w))).
      { intros Hin. destruct (Hkeys _ Hin) as (j & Hj & Heq).
        apply client_id_inj in Heq. lia. }
      rewrite (Map_set_fresh _ _ _ Hfresh) in Hc.
      assert (P1 : 0 <= nextClientId w1) by lia.
      assert (P2 : forall k, In k (map fst (clients w1)) ->
                   exists j, 0 <= j < nextClientId w1 /\ k = client_id j).
      { intros k Hin. rewrite Hc, map_app in Hin. apply in_app_or in Hin.
        rewrite Hn. destruct Hin as [Hin|[<-|[]]].
        - destruct (Hkeys _ Hin) as (j & Hj & Heq). exists j. split; [lia|auto].
        - exists (nextClientId w). split; [lia|reflexivity]. }
      assert (P3 : nextClientId w1 + Z.of_nat (connections evs) <= MAX_EXACT)
        by lia.
      destruct (IH w1 Hnd1 P1 P2 P3) as [IHc IHn].
      split; [|lia]. rewrite IHc, Hc, Hn, filter_app. simpl.
      destruct (closed_in (client_id (nextClientId w)) evs); simpl;
        [now rewrite app_nil_r | now rewrite <- app_assoc].
    + rewrite (Map_delete_filter _ _ Hnd) in Hc.
      assert (P1 : 0 <= nextClientId w1) by lia.
      assert (P2 : forall k, In k (map fst (clients w1)) ->
                   exists j, 0 <= j < nextClientId w1 /\ k = client_id j).
      { rewrite Hc, Hn. apply Hkeep. intros kv Hin.
        apply filter_In in Hin. tauto. }
      assert (P3 : nextClientId w1 + Z.of_nat (connections evs) <= MAX_EXACT)
        by lia.
      destruct (IH w1 Hnd1 P1 P2 P3) as [IHc IHn].
      split; [|lia]. rewrite IHc, Hc, Hn, filter_twice. simpl. f_equal.
      apply filter_ext. intros kv. now rewrite negb_orb.
    + rewrite (Map_delete_filter _ _ Hnd) in Hc.
      assert (P1 : 0 <= nextClientId w1) by lia.
      assert (P2 : forall k, In k (map fst (clients w1)) ->
                   exists j, 0 <= j < nextClientId w1 /\ k = client_id j).
      { rewrite Hc, Hn. apply Hkeep. intros kv Hin.
        apply filter_In in Hin. tauto. }
      assert (P3 : nextClientId w1 + Z.of_nat (connections evs) <= MAX_EXACT)
        by lia.
      destruct (IH w1 Hnd1 P1 P2 P3) as [IHc IHn].
      split; [|lia]. rewrite IHc, Hc, Hn, filter_twice. simpl. f_equal.
      apply filter_ext. intros kv. now rewrite negb_orb.
    + assert (P1 : 0 <= nextClientId w1) by lia.
      assert (P2 : forall k, In k (map fst (clients w1)) ->
                   exists j, 0 <= j < nextClientId w1 /\ k = client_id j)
        by (rewrite Hc, Hn; exact Hkeys).
      assert (P3 : nextClientId w1 + Z.of_nat (connections evs) <= MAX_EXACT)
        by lia.
      destruct (IH w1 Hnd1 P1 P2 P3) as [IHc IHn].
      split; [|lia]. now rewrite IHc, Hc, Hn.
    + assert (P1 : 0 <= nextClientId w1) by lia.
      assert (P2 : forall k, In k (map fst (clients w1)) ->
                   exists j, 0 <= j < nextClientId w1 /\ k = client_id j)
        by (rewrite Hc, Hn; exact Hkeys).
      assert (P3 : nextClientId w1 + Z.of_nat (connections evs) <= MAX_EXACT)
        by lia.
      destruct (IH w1 Hnd1 P1 P2 P3) as [IHc IHn].
      split; [|lia]. now rewrite IHc, Hc, Hn.
Qed.

(** X14.  While the counter is exact (at most [2^53] connections so far),
    the registry is a function of the signals the server has seen: it holds,
    in the order they connected, exactly the connections that no later close
    or error signal has named, each under the id [client#k] of its rank [k];
    and [nextClientId] is the number of connections accepted, closed or
    not. *)
Theorem registry_is_the_open_connections : forall evs,
  Z.of_nat (connections evs) <= MAX_EXACT ->
  clients (snd (run evs attached)) = still_open 0 evs
  /\ nextClientId (snd (run evs attached)) = Z.of_nat (connections evs).
Proof.
  intros evs Hb.
  assert (P2 : forall k, In k (map fst (clients attached)) ->
               exists j, 0 <= j < nextClientId attached /\ k = client_id j)
    by (intros k []).
  assert (P3 : nextClientId attached + Z.of_nat (connections evs) <= MAX_EXACT)
    by (simpl; lia).
  destruct (run_registry evs attached (NoDup_nil _) (Z.le_refl 0) P2 P3)
    as [Hc Hn].
  split; [exact Hc | exact Hn].
Qed.

(** X16.  While the counter is exact, a report writes only to the
    connections that no close or error signal has named so far: a client is
    not written to after its close or error signal. *)
Theorem closed_clients_are_not_written : forall evs event,
  Z.of_nat (connections evs) <= MAX_EXACT ->
  exists es,
    snd (reportEvent event (snd (run evs attached))) =
    after (snd (run evs attached)) es
    /\ forall ws d,
         In (ws, d) (sends es) -> In ws (map snd (still_open 0 evs)).
Proof.
  intros evs event Hb.
  assert (P2 : forall k, In k (map fst (clients attached)) ->
               exists j, 0 <= j < nextClientId attached /\ k = client_id j)
    by (intros k []).
  assert (P3 : nextClientId attached + Z.of_nat (connections evs) <= MAX_EXACT)
    by (simpl; lia).
  destruct (run_registry evs attached (NoDup_nil _) (Z.le_refl 0) P2 P3)
    as [Hc _].
  destruct (report_writes event (snd (run evs attached))) as (es & Hrun & Hreg).
  exists es. split; [exact Hrun|].
  intros ws d Hin. destruct (Hreg ws d Hin) as [Hws _].
  now rewrite Hc in Hws.
Qed.

(** X17.  A close or error signal for an id that is not in the registry
    changes nothing and does not throw. *)
Theorem close_of_unknown_id_is_a_no_op : forall clientId w,
  ~ In clientId (map fst (clients w)) ->
  onclose clientId w = (Ret tt, w) /\ onerror clientId w = (Ret tt, w).
Proof.
  intros clientId w H. unfold onerror, onclose, clients_delete.
  rewrite (Map_delete_absent _ _ H). now destruct w.
Qed.

(** ** The admission check, again *)

Lemma prefix_extends : forall p s t,
  String.prefix p s = true -> String.prefix p (s ++ t) = true.
Proof.
  intros p s t H. apply (startsWith_spec p s) in H. destruct H as [rest ->].
  apply (startsWith_spec p). exists (rest ++ t). apply string_app_assoc.
Qed.

(** X15.  [verifyClient] looks at the beginning of the origin and at
    nothing else: whatever is appended to an accepted origin that is not
    empty, the result is accepted too.  The scheme is part of what it looks
    at: no origin that begins with [https:] is accepted. *)
Theorem verifyClient_checks_the_prefix_only :
  (forall s t,
     s <> "" ->
     verifyClient (Some s) = true -> verifyClient (Some (s ++ t)) = true)
  /\ (forall rest, verifyClient (Some ("https:" ++ rest)) = false).
Proof.
  split; [|reflexivity].
  intros s t Hs. simpl. rewrite !orb_true_iff.
  unfold startsWith. intros [[H|H]|H].
  - destruct s; [now elim Hs | discriminate H].
  - left; right. now apply prefix_extends.
  - right. now apply prefix_extends.
Qed.

End Server.

(** * Concrete runs *)

(** C3, as the specification words it, fails: an event whose [error] is an
    [Error] and whose [size] is a BigInt is rejected, because
    [JSON.stringify] throws on the BigInt after the [error] was rewritten. *)
Lemma error_event_with_BigInt_rejected :
  ~ (forall (prettyFormat : any -> PrettyFormatOptions -> string) event e w,
       Get event "error" = Ret (VError e) ->
       fst (serializeMessage prettyFormat event w) <> Ret VNull).
Proof.
  intros H.
  apply (H Sample.render Sample.unencodable Sample.boom attached eq_refl).
  reflexivity.
Qed.

(** C3 at a failed build: the payload carries the rendering of the error. *)
Lemma serializeMessage_error_event_witness :
  Get Sample.build_failed "error" = Ret (VError Sample.boom)
  /\ serializeMessage Sample.render Sample.build_failed attached =
     (Ret (VStr Sample.build_failed_text),
      after attached
        [EStringify
           (VObj [("type", VStr "bundle_build_failed");
                  ("error", VStr "[Error: boom]")])])
  /\ occurs_in
       (JSON.quote "error" ++ ":" ++ JSON.quote "[Error: boom]")
       Sample.build_failed_text.
Proof.
  split; [reflexivity|].
  exact (proj2 (proj2 (proj2 (proj2
    (serializeMessage_error_event Sample.render Sample.build_failed
       Sample.boom attached eq_refl))))).
Defined.

(** C4 at a console call with a string, a number and [null]. *)
Lemma serializeMessage_client_log_witness :
  (forall e, Get Sample.console_log "error" <> Ret (VError e))
  /\ Get Sample.console_log "type" = Ret (VStr "client_log")
  /\ Get Sample.console_log "data" = Ret (VArr [VStr "count"; VNum 3; VNull])
  /\ serializeMessage Sample.render Sample.console_log attached =
     (Ret (VStr Sample.console_log_text),
      after attached
        [EStringify
           (VObj [("type", VStr "client_log"); ("level", VStr "log");
                  ("data", VArr [VStr "count"; VStr "[3]"; VStr "[null]"])])])
  /\ occurs_in
       (JSON.quote "data" ++ ":[" ++ JSON.quote "count" ++ ","
        ++ JSON.quote "[3]" ++ "," ++ JSON.quote "[null]" ++ "]")
       Sample.console_log_text.
Proof.
  assert (H : forall e, Get Sample.console_log "error" <> Ret (VError e))
    by (intros e; discriminate).
  split; [exact H|]. split; [reflexivity|]. split; [reflexivity|].
  exact (proj2 (proj2 (proj2 (proj2 (proj2
    (serializeMessage_client_log Sample.render Sample.console_log
       [VStr "count"; VNum 3; VNull] attached H eq_refl eq_refl)))))).
Defined.

(** C10 at a [client_log] event with no [data], two clients registered. *)
Lemma serializeMessage_client_log_without_array_witness :
  (forall e, Get Sample.log_without_data "error" <> Ret (VError e))
  /\ Get Sample.log_without_data "type" = Ret (VStr "client_log")
  /\ Get Sample.log_without_data "data" = Ret VUndefined
  /\ (forall items, VUndefined <> VArr items)
  /\ exists thrown,
       error_name thrown = "TypeError"
       /\ serializeMessage Sample.render Sample.log_without_data
            Sample.two_clients = (Throw thrown, Sample.two_clients)
       /\ (clients Sample.two_clients <> [] ->
           reportEvent Sample.render Sample.send_throws Sample.log_without_data
             Sample.two_clients = (Throw thrown, Sample.two_clients)).
Proof.
  assert (H : forall e, Get Sample.log_without_data "error" <> Ret (VError e))
    by (intros e; discriminate).
  assert (Hna : forall items, VUndefined <> VArr items)
    by (intros items; discriminate).
  split; [exact H|]. split; [reflexivity|]. split; [reflexivity|].
  split; [exact Hna|].
  exact (serializeMessage_client_log_without_array Sample.render
           Sample.send_throws Sample.log_without_data VUndefined
           Sample.two_clients H eq_refl eq_refl Hna).
Defined.

(** C6 at a [reload] command of protocol version 1. *)
Lemma onmessage_wrong_version_not_relayed_witness :
  Sample.parse (Sample.reload_text "1") = Ret (Sample.reload 1)
  /\ Get (Sample.reload 1) "version" <> Ret (VNum 2)
  /\ (exists text,
        onmessage Sample.parse Sample.broadcast_ok (Sample.reload_text "1")
          Sample.two_clients =
        (Ret tt, after Sample.two_clients [ELog [VStr text]]))
  /\ broadcasts
       (trace (snd (onmessage Sample.parse Sample.broadcast_ok
                      (Sample.reload_text "1") Sample.two_clients))) =
     broadcasts (trace Sample.two_clients).
Proof.
  assert (Hv : Get (Sample.reload 1) "version" <> Ret (VNum 2)) by discriminate.
  split; [reflexivity|]. split; [exact Hv|].
  exact (onmessage_wrong_version_not_relayed Sample.parse Sample.broadcast_ok
           (Sample.reload_text "1") Sample.two_clients (Sample.reload 1)
           eq_refl Hv).
Defined.

(** C7 at a [reload] command of protocol version 2: one call of
    [broadcast('reload', undefined)]. *)
Lemma onmessage_relays_command_witness :
  Sample.parse (Sample.reload_text "2") = Ret (Sample.reload 2)
  /\ Get (Sample.reload 2) "version" = Ret (VNum 2)
  /\ onmessage Sample.parse Sample.broadcast_ok (Sample.reload_text "2")
       Sample.two_clients =
     (Ret tt, after Sample.two_clients [EBroadcast (VStr "reload") VUndefined]).
Proof.
  split; [reflexivity|]. split; [reflexivity|].
  destruct (onmessage_relays_command Sample.parse Sample.broadcast_ok
              (Sample.reload_text "2") Sample.two_clients (Sample.reload 2)
              eq_refl eq_refl)
    as (type & command & params & Ht & Hc & Hp & Hcommand & _).
  injection Ht as <-. injection Hc as <-. injection Hp as <-.
  exact (proj1 (Hcommand eq_refl)).
Defined.

(** C2 at three clients of which the second one's socket fails. *)
Lemma broadcast_isolates_failures_witness :
  serializeMessage Sample.render Sample.foo Sample.three_clients =
  (Ret (VStr Sample.foo_text),
   after Sample.three_clients [EStringify Sample.foo])
  /\ map snd (clients Sample.three_clients) = ([0] ++ 1 :: [2])%nat%list
  /\ exists es_before es_rest w',
       reportEvent Sample.render Sample.send_throws Sample.foo
         Sample.three_clients = (Ret tt, w')
       /\ clients w' = clients Sample.three_clients
       /\ trace w' =
          ([EStringify Sample.foo] ++ es_before ++
           ESend 1%nat (VStr Sample.foo_text) ::
           [Sample.send_failure] ++ es_rest)%list
       /\ sends es_before = [(0%nat, VStr Sample.foo_text)]
       /\ sends es_rest = [(2%nat, VStr Sample.foo_text)].
Proof.
  split; [reflexivity|]. split; [reflexivity|].
  exact (broadcast_isolates_failures Sample.render Sample.send_throws
           Sample.foo Sample.three_clients Sample.foo_text
           (after Sample.three_clients [EStringify Sample.foo])
           [0%nat] 1%nat [2%nat] eq_refl eq_refl).
Defined.

(** C9, as the specification words it, fails once [nextClientId] has
    reached [2^53]: there [nextClientId++] leaves it unchanged, so the
    connection after connection number [2^53 + 1] is given the id
    [client#9007199254740992] a second time. *)
Lemma client_id_given_twice_after_saturation :
  ~ (forall JSON_parse prettyFormat ws_send_throws broadcast_throws evs,
       let r := run JSON_parse prettyFormat ws_send_throws broadcast_throws
                  evs attached in
       NoDup (map fst (clients (snd r))) /\ NoDup (fst r)).
Proof.
  intros H.
  apply (saturated_id_given_twice Sample.parse Sample.render
           Sample.send_throws Sample.broadcast_ok 0%nat (Z.to_nat MAX_EXACT)).
  - apply Z2Nat.id. discriminate.
  - apply H.
Qed.

(** C1 at two clients and the event [{type: 'foo'}]: one call of
    [JSON.stringify], and both sockets are written the same text. *)
Lemma reportEvent_all_or_none_witness :
  clients Sample.two_clients <> []
  /\ serializeMessage Sample.render Sample.foo Sample.two_clients =
     (Ret (VStr Sample.foo_text),
      after Sample.two_clients [EStringify Sample.foo])
  /\ exists v w',
       reportEvent Sample.render Sample.send_throws Sample.foo
         Sample.two_clients = (Ret tt, w')
       /\ clients w' = clients Sample.two_clients
       /\ stringified (trace w') = [v]
       /\ sends (trace w') =
          [(0%nat, VStr Sample.foo_text); (1%nat, VStr Sample.foo_text)].
Proof.
  assert (Hne : clients Sample.two_clients <> []) by discriminate.
  split; [exact Hne|]. split; [reflexivity|].
  exact (proj2 (reportEvent_all_or_none Sample.render Sample.send_throws
                  Sample.foo Sample.two_clients)
           Hne _ _ eq_refl).
Defined.

(** C5 at a command of version 2, returned as decoded, and at a text that
    does not decode. *)
Lemma parseMessage_rejects_exactly_witness :
  parseMessage Sample.parse (Sample.reload_text "2") attached =
  (Ret (Sample.reload 2), attached)
  /\ fst (parseMessage Sample.parse "garbage" attached) = Ret VUndefined.
Proof.
  split.
  - exact (proj2 (parseMessage_rejects_exactly Sample.parse
                    (Sample.reload_text "2") attached)
             (Sample.reload 2) eq_refl eq_refl).
  - apply (proj1 (parseMessage_rejects_exactly Sample.parse "garbage" attached)).
    left. now exists (SyntaxError "Unexpected token").
Defined.

(** C9 at three connections with a close in between. *)
Lemma client_ids_unique_while_counter_exact_witness :
  Z.of_nat (connections Sample.session) <= MAX_EXACT + 1
  /\ fst (run Sample.parse Sample.render Sample.send_throws
            Sample.broadcast_ok Sample.session attached) =
     ["client#0"; "client#1"; "client#2"]
  /\ NoDup (fst (run Sample.parse Sample.render Sample.send_throws
                   Sample.broadcast_ok Sample.session attached)).
Proof.
  assert (Hb : Z.of_nat (connections Sample.session) <= MAX_EXACT + 1)
    by discriminate.
  split; [exact Hb|].
  exact (proj2 (client_ids_unique_while_counter_exact Sample.parse
                  Sample.render Sample.send_throws Sample.broadcast_ok
                  Sample.session) Hb).
Defined.

(** X1 at [{type: 'foo'}]: the payload is the event's own JSON text. *)
Lemma serializeMessage_passes_other_events_witness :
  (forall e, Get Sample.foo "error" <> Ret (VError e))
  /\ Get Sample.foo "type" <> Ret (VStr "client_log")
  /\ serializeMessage Sample.render Sample.foo attached =
     (Ret (VStr Sample.foo_text), after attached [EStringify Sample.foo]).
Proof.
  assert (He : forall e, Get Sample.foo "error" <> Ret (VError e))
    by (intros e; discriminate).
  assert (Ht : Get Sample.foo "type" <> Ret (VStr "client_log")) by discriminate.
  split; [exact He|]. split; [exact Ht|].
  exact (proj2 (serializeMessage_passes_other_events Sample.render Sample.foo
                  attached He Ht)).
Defined.

(** X8 at a console call that carries an [Error]: [data] stays [[3]]. *)
Lemma serializeMessage_error_keeps_other_fields_witness :
  Get Sample.log_with_error "error" = Ret (VError Sample.boom)
  /\ exists props rewritten,
       Sample.log_with_error = VObj props
       /\ stringified
            (trace (snd (serializeMessage Sample.render Sample.log_with_error
                           attached))) =
          (stringified (trace attached) ++ [VObj rewritten])%list
       /\ map fst rewritten = map fst props
       /\ forall k, k <> "error" ->
                    Get (VObj rewritten) k = Get Sample.log_with_error k.
Proof.
  split; [reflexivity|].
  exact (serializeMessage_error_keeps_other_fields Sample.render
           Sample.log_with_error Sample.boom attached eq_refl).
Defined.

(** X9 at a console call with a string, a number and [null]. *)
Lemma serializeMessage_client_log_keeps_other_fields_witness :
  (forall e, Get Sample.console_log "error" <> Ret (VError e))
  /\ Get Sample.console_log "type" = Ret (VStr "client_log")
  /\ Get Sample.console_log "data" = Ret (VArr [VStr "count"; VNum 3; VNull])
  /\ exists props rewritten,
       Sample.console_log = VObj props
       /\ stringified
            (trace (snd (serializeMessage Sample.render Sample.console_log
                           attached))) =
          (stringified (trace attached) ++ [VObj rewritten])%list
       /\ map fst rewritten = map fst props
       /\ forall k, k <> "data" ->
                    Get (VObj rewritten) k = Get Sample.console_log k.
Proof.
  assert (H : forall e, Get Sample.console_log "error" <> Ret (VError e))
    by (intros e; discriminate).
  split; [exact H|]. split; [reflexivity|]. split; [reflexivity|].
  exact (serializeMessage_client_log_keeps_other_fields Sample.render
           Sample.console_log [VStr "count"; VNum 3; VNull] attached
           H eq_refl eq_refl).
Defined.

(** X11 at a third client that connects to two and a report of
    [{type: 'foo'}]. *)
Lemma connected_client_is_sent_next_event_witness :
  fst (serializeMessage Sample.render Sample.foo
         (snd (connection 2%nat Sample.two_clients))) =
  Ret (VStr Sample.foo_text)
  /\ exists es,
       reportEvent Sample.render Sample.send_throws Sample.foo
         (snd (connection 2%nat Sample.two_clients)) =
       (Ret tt, after (snd (connection 2%nat Sample.two_clients)) es)
       /\ In (2%nat, VStr Sample.foo_text) (sends es).
Proof.
  split; [reflexivity|].
  exact (connected_client_is_sent_next_event Sample.render Sample.send_throws
           2%nat Sample.two_clients Sample.foo Sample.foo_text eq_refl).
Defined.

(** X12 at a report that is rejected, followed by one of [{type: 'foo'}],
    with two clients of which one has a failing socket. *)
Lemma failures_keep_the_audience_witness :
  fst (serializeMessage Sample.render Sample.foo
         (snd (reportEvent Sample.render Sample.send_throws Sample.unencodable
                 Sample.two_clients))) =
  Ret (VStr Sample.foo_text)
  /\ exists es,
       reportEvent Sample.render Sample.send_throws Sample.foo
         (snd (reportEvent Sample.render Sample.send_throws Sample.unencodable
                 Sample.two_clients)) =
       (Ret tt,
        after (snd (reportEvent Sample.render Sample.send_throws
                      Sample.unencodable Sample.two_clients)) es)
       /\ sends es =
          [(0%nat, VStr Sample.foo_text); (1%nat, VStr Sample.foo_text)].
Proof.
  split; [reflexivity|].
  exact (failures_keep_the_audience Sample.render Sample.send_throws
           Sample.unencodable Sample.foo Sample.two_clients Sample.foo_text
           eq_refl).
Defined.

(** X13 at one connection and one report. *)
Lemma run_writes_only_to_connected_witness :
  In (0%nat, VStr Sample.foo_text)
    (sends (trace (snd (run Sample.parse Sample.render Sample.send_throws
                          Sample.broadcast_ok
                          [Connection 0%nat; Report Sample.foo] attached))))
  /\ In (Connection 0%nat) [Connection 0%nat; Report Sample.foo].
Proof.
  assert (H : In (0%nat, VStr Sample.foo_text)
                (sends (trace (snd (run Sample.parse Sample.render
                                      Sample.send_throws Sample.broadcast_ok
                                      [Connection 0%nat; Report Sample.foo]
                                      attached)))))
    by (left; reflexivity).
  split; [exact H|].
  exact (run_writes_only_to_connected Sample.parse Sample.render
           Sample.send_throws Sample.broadcast_ok _ _ _ H).
Defined.

(** X14 at three connections with a close in between: the second and the
    third are registered, and the counter is 3. *)
Lemma registry_is_the_open_connections_witness :
  Z.of_nat (connections Sample.session) <= MAX_EXACT
  /\ clients (snd (run Sample.parse Sample.render Sample.send_throws
                     Sample.broadcast_ok Sample.session attached)) =
     [("client#1", 1%nat); ("client#2", 2%nat)]
  /\ nextClientId (snd (run Sample.parse Sample.render Sample.send_throws
                          Sample.broadcast_ok Sample.session attached)) = 3.
Proof.
  assert (Hb : Z.of_nat (connections Sample.session) <= MAX_EXACT)
    by discriminate.
  split; [exact Hb|].
  exact (registry_is_the_open_connections Sample.parse Sample.render
           Sample.send_throws Sample.broadcast_ok Sample.session Hb).
Defined.

(** X16 at three connections with a close in between: the report that
    follows writes to the second and the third socket only. *)
Lemma closed_clients_are_not_written_witness :
  Z.of_nat (connections Sample.session) <= MAX_EXACT
  /\ exists es,
       snd (reportEvent Sample.render Sample.send_throws Sample.foo
              (snd (run Sample.parse Sample.render Sample.send_throws
                      Sample.broadcast_ok Sample.session attached))) =
       after (snd (run Sample.parse Sample.render Sample.send_throws
                     Sample.broadcast_ok Sample.session attached)) es
       /\ forall ws d, In (ws, d) (sends es) -> In ws [1%nat; 2%nat].
Proof.
  assert (Hb : Z.of_nat (connections Sample.session) <= MAX_EXACT)
    by discriminate.
  split; [exact Hb|].
  exact (closed_clients_are_not_written Sample.parse Sample.render
           Sample.send_throws Sample.broadcast_ok Sample.session Sample.foo Hb).
Defined.

(** X17 at the id of a client that never connected. *)
Lemma close_of_unknown_id_is_a_no_op_witness :
  ~ In "client#7" (map fst (clients Sample.two_clients))
  /\ onclose "client#7" Sample.two_clients = (Ret tt, Sample.two_clients)
  /\ onerror "client#7" Sample.two_clients = (Ret tt, Sample.two_clients).
Proof.
  assert (H : ~ In "client#7" (map fst (clients Sample.two_clients))).
  { simpl. intros [H|[H|[]]]; discriminate H. }
  split; [exact H|].
  exact (close_of_unknown_id_is_a_no_op "client#7" Sample.two_clients H).
Defined.
